(** * Literature review service: message extraction, filtering and progress

    A shallow embedding of [backend/literature_review_service.py]
    (class [LiteratureReviewService]) and of the part of
    [backend/agent_backend.py] it calls, followed by the properties the
    specification states about them.

    Python strings are sequences of Unicode code points, so a string is a
    list of code points; [str.strip], [str.split], [str.join] and the [in]
    test are written out on that representation. *)

From Stdlib Require Import Ascii String DecimalString PrimFloat.
From Stdlib Require Import List Bool Arith NArith ZArith Lia Sorted.
Import ListNotations.

(* ================================================================= *)
(** ** Python strings *)

Module Py.

Abbreviation char := N (only parsing).
Abbreviation str := (list N) (only parsing).

(** A literal of the source, from its ASCII spelling. *)
Definition lit (s : string) : str := map N_of_ascii (list_ascii_of_string s).

Definition nl : char := 10%N.        (* line feed *)
Definition dq : char := 34%N.        (* double quote *)
Definition sp : char := 32%N.        (* space *)

Definition eqb (a b : str) : bool :=
  if list_eq_dec N.eq_dec a b then true else false.

(** [bool(s)] for a string: non-empty. *)
Definition nonempty (s : str) : bool :=
  match s with [] => false | _ :: _ => true end.

(** [c.isspace()]: the code points CPython's [_PyUnicode_IsWhitespace]
    accepts; these are the ones [str.strip()] removes. *)
Definition isspace (c : char) : bool :=
  (((9 <=? c) && (c <=? 13)) || ((28 <=? c) && (c <=? 32))
   || (c =? 133) || (c =? 160) || (c =? 5760)
   || ((8192 <=? c) && (c <=? 8202))
   || (c =? 8232) || (c =? 8233) || (c =? 8239) || (c =? 8287)
   || (c =? 12288))%N.

Fixpoint lstrip (s : str) : str :=
  match s with
  | [] => []
  | c :: s' => if isspace c then lstrip s' else s
  end.

Definition rstrip (s : str) : str := rev (lstrip (rev s)).

(** [s.strip()] *)
Definition strip (s : str) : str := rstrip (lstrip s).

(** [s.startswith(p)] *)
Fixpoint prefixb (p s : str) : bool :=
  match p, s with
  | [], _ => true
  | _ :: _, [] => false
  | a :: p', b :: s' => N.eqb a b && prefixb p' s'
  end.

(** [p in s] *)
Fixpoint contains (p s : str) : bool :=
  prefixb p s || match s with [] => false | _ :: s' => contains p s' end.

(** [s.find(sep)], [None] for -1. *)
Fixpoint find (sep s : str) : option nat :=
  if prefixb sep s then Some 0
  else match s with
       | [] => None
       | _ :: s' => option_map S (find sep s')
       end.

(** [s.split(sep)] for a non-empty [sep]: cut at the first occurrence and
    go on after it.  The recursion is on a bound that the length of [s]
    always satisfies (see [split_eq]). *)
Fixpoint split_from (bound : nat) (sep s : str) : list str :=
  match find sep s with
  | None => [s]
  | Some i =>
      firstn i s ::
        match bound with
        | O => []
        | S b => split_from b sep (skipn (i + length sep) s)
        end
  end.

Definition split (sep s : str) : list str := split_from (length s) sep s.

(** [sep.join(l)] *)
Fixpoint join (sep : str) (l : list str) : str :=
  match l with
  | [] => []
  | x :: rest =>
      match rest with
      | [] => x
      | _ :: _ => x ++ sep ++ join sep rest
      end
  end.

(** [str(n)] for an integer. *)
Definition str_of_int (z : Z) : str := lit (NilZero.string_of_int (Z.to_int z)).

(** The values the service inspects only through [bool(v)], [str(v)] and
    [isinstance(v, str)]: [None], a string, or any other object, given by
    its truth value and its [str()]. *)
Inductive value : Type :=
| PyNone
| PyStr (s : str)
| PyOther (truth : bool) (shown : str).

Definition truthy (v : value) : bool :=
  match v with
  | PyNone => false
  | PyStr s => nonempty s
  | PyOther t _ => t
  end.

Definition is_str (v : value) : bool :=
  match v with PyStr _ => true | _ => false end.

Definition to_str (v : value) : str :=
  match v with
  | PyNone => lit "None"
  | PyStr s => s
  | PyOther _ r => r
  end.

End Py.

Import Py.

(** [occurs p s]: [p] is a substring of [s]. *)
Definition occurs (p s : str) : Prop := exists a b, s = a ++ p ++ b.

(* ================================================================= *)
(** ** Content classifier *)

Definition function_indicators : list str :=
  [ lit "[FunctionCall(";
    lit "[FunctionExecutionResult(";
    lit "call_id=";
    lit "arguments=";
    lit "name='arxive_search'";
    lit "name=" ++ [dq] ++ lit "arxive_search" ++ [dq];
    [dq] ++ lit "query" ++ [dq] ++ lit ":";
    [dq] ++ lit "max_result" ++ [dq] ++ lit ":";
    lit "pdf_url";
    lit "published";
    lit "authors" ].

Definition json_indicators : list str :=
  [ lit "'title':";
    lit "'authors':";
    lit "'published':";
    lit "'summary':";
    lit "'pdf_url':";
    lit "{'title':";
    lit "{" ++ [dq] ++ lit "title" ++ [dq] ++ lit ":" ].

(** [any(indicator in content for indicator in indicators)] *)
Definition any_in (indicators : list str) (content : str) : bool :=
  existsb (fun indicator => contains indicator content) indicators.

Definition is_function_call_message (content : value) : bool :=
  if negb (truthy content) || negb (is_str content) then false
  else any_in function_indicators (to_str content).

Definition is_raw_json_data (content : value) : bool :=
  if negb (truthy content) || negb (is_str content) then false
  else any_in json_indicators (to_str content).

(* ================================================================= *)
(** ** Content aggregation *)

(** The test that opens the review in [extract_final_review_only], on a
    line that has already been stripped. *)
Definition starts_review (line : str) : bool :=
  contains (lit "Literature Review:") line
  || contains (lit "Key Papers") line
  || (nonempty line
      && negb (is_function_call_message (PyStr line))
      && negb (is_raw_json_data (PyStr line))).

(** One turn of the loop over the lines; the state is
    [(review_started, review_lines)]. *)
Definition review_step (st : bool * list str) (line0 : str) : bool * list str :=
  let '(review_started, review_lines) := st in
  let line := strip line0 in
  if negb review_started && negb (nonempty line) then st
  else if negb review_started && starts_review line
       then (true, review_lines ++ [line])
  else if review_started then (review_started, review_lines ++ [line])
  else st.

Definition extract_final_review_only (content : str) : str :=
  if negb (nonempty content) then []
  else
    let lines := split [nl] content in
    let '(_, review_lines) := fold_left review_step lines (false, []) in
    strip (join [nl] review_lines).

(** One turn of the loop over the sections; the state is
    [(clean_sections, seen_content)].  [seen_content] is a set of strings,
    used for membership only. *)
Definition clean_step (st : list str * list str) (section0 : str)
  : list str * list str :=
  let '(clean_sections, seen_content) := st in
  let section := strip section0 in
  if negb (nonempty section) then st
  else if is_function_call_message (PyStr section)
          || is_raw_json_data (PyStr section) then st
  else if existsb (eqb section) seen_content then st
  else (clean_sections ++ [section], section :: seen_content).

(** The sections the loop of [clean_content] keeps. *)
Definition clean_sections_of (content : str) : list str :=
  fst (fold_left clean_step (split [nl; nl] content) ([], [])).

Definition clean_content (content : str) : str :=
  if negb (nonempty content) then []
  else
    let cleaned_content := join [nl; nl] (clean_sections_of content) in
    let final_review := extract_final_review_only cleaned_content in
    if nonempty final_review then final_review else cleaned_content.

(** Aggregation of the blocks of a run, as [run_review] does it:
    [clean_content('\n\n'.join(all_messages))]. *)
Definition aggregate (blocks : list str) : str :=
  clean_content (join [nl; nl] blocks).

(* ================================================================= *)
(** ** Exceptions and raw messages *)

(** An instance of Python's [Exception], known by its [str(e)]. *)
Record exn : Type := Exception { exn_str : str }.

Inductive result (A : Type) : Type :=
| Ok (a : A)
| Err (e : exn).
Arguments Ok {A} a.
Arguments Err {A} e.

Definition rbind {A B} (c : result A) (k : A -> result B) : result B :=
  match c with Ok a => k a | Err e => Err e end.

(** [try: c  except Exception as e: h e] *)
Definition rtry {A} (c : result A) (h : exn -> result A) : result A :=
  match c with Ok a => Ok a | Err e => h e end.

(** [c1 and c2], [c2] evaluated only when [c1] holds. *)
Definition rand (c1 c2 : result bool) : result bool :=
  rbind c1 (fun b => if b then c2 else Ok false).

(** An attribute of an object: missing, present with a value, or a
    property whose getter raises something other than [AttributeError]. *)
Inductive attr (A : Type) : Type :=
| Absent
| Raises (e : exn)
| Has (v : A).
Arguments Absent {A}.
Arguments Raises {A} e.
Arguments Has {A} v.

Definition AttributeError : exn := Exception (lit "AttributeError").

Definition hasattr {A} (a : attr A) : result bool :=
  match a with
  | Absent => Ok false
  | Raises e => Err e
  | Has _ => Ok true
  end.

Definition getattr {A} (a : attr A) : result A :=
  match a with
  | Absent => Err AttributeError
  | Raises e => Err e
  | Has v => Ok v
  end.

(** What a [messages] or [inner_messages] attribute holds: a falsy value
    ([None], the empty list, ...), a non-empty list [init ++ [last]], or a
    truthy object that is not a list. *)
Inductive container (M : Type) : Type :=
| Falsy
| ListOf (init : list M) (last : M)
| NotList (m : M).
Arguments Falsy {M}.
Arguments ListOf {M} init last.
Arguments NotList {M} m.

Definition container_truthy {M} (c : container M) : bool :=
  match c with Falsy => false | _ => true end.

(** A message of the stream, by the six attributes the service probes.
    A value with none of them (a string, a number, a dict) is the message
    whose attributes are all [Absent]. *)
#[local] Unset Elimination Schemes.
Inductive Msg : Type :=
  mkMsg {
      a_content : attr value;
      a_summary : attr value;
      a_messages : attr (container Msg);
      a_inner_messages : attr (container Msg);
      a_text : attr value;
      a_message : attr value
    }.
#[local] Set Elimination Schemes.

(** [hasattr(msg, 'x') and msg.x] *)
Definition has_true (a : attr value) : result bool :=
  rand (hasattr a) (rbind (getattr a) (fun v => Ok (truthy v))).

Definition has_true_container (a : attr (container Msg)) : result bool :=
  rand (hasattr a) (rbind (getattr a) (fun v => Ok (container_truthy v))).

(** [str(msg.x)] *)
Definition str_attr (a : attr value) : result str :=
  rbind (getattr a) (fun v => Ok (to_str v)).

(** What the interpreter raises when a call would exceed its recursion
    limit; it is an [Exception]. *)
Definition RecursionError : exn :=
  Exception (lit "maximum recursion depth exceeded").

(** [depth] is the number of nested calls of the function that the
    interpreter's recursion limit still admits, this one included: with
    none left the call raises [RecursionError] in its caller, where the
    caller's [except Exception] catches it. *)
Fixpoint extract_message_content (depth : nat) (msg : Msg) : result str :=
  match depth with
  | O => Err RecursionError
  | S depth =>
      rtry
        (rbind (has_true (a_content msg)) (fun c1 =>
         if c1 then str_attr (a_content msg) else
         rbind (has_true (a_summary msg)) (fun c2 =>
         if c2 then str_attr (a_summary msg) else
         rbind (has_true_container (a_messages msg)) (fun c3 =>
         if c3 then
           match a_messages msg with
           | Has (ListOf _ last_msg) => extract_message_content depth last_msg
           | Has (NotList last_msg) => extract_message_content depth last_msg
           | _ => Err AttributeError
           end
         else
         rbind (has_true_container (a_inner_messages msg)) (fun c4 =>
         if c4 then
           match a_inner_messages msg with
           | Has (ListOf _ last_msg) => extract_message_content depth last_msg
           | Has (NotList last_msg) => extract_message_content depth last_msg
           | _ => Err AttributeError
           end
         else
         rbind (has_true (a_text msg)) (fun c5 =>
         if c5 then str_attr (a_text msg) else
         rbind (has_true (a_message msg)) (fun c6 =>
         if c6 then str_attr (a_message msg) else
         Ok [])))))))
        (fun _ => Ok [])
  end.

(* ================================================================= *)
(** ** Data model of a run *)

Inductive ReviewStatus : Type :=
| INITIALIZING
| SEARCHING
| SUMMARIZING
| COMPLETED
| ERROR.

(** [datetime.now()], as a count of microseconds. *)
Definition datetime := Z.

Record ReviewProgress : Type :=
  mkReviewProgress {
      status : ReviewStatus;
      message : str;
      progress_percent : Z;
      timestamp : datetime
    }.

Record ReviewConfig : Type :=
  mkReviewConfig {
      topic : str;
      max_results : Z;
      model_name : str;
      max_turns : Z;
      api_key : option str
    }.

Record ReviewResult : Type :=
  mkReviewResult {
      success : bool;
      content : str;
      error_message : str;
      execution_time : float;
      config : option ReviewConfig;
      papers_found : Z
    }.

Record LiteratureReviewService : Type :=
  mkService { self_api_key : str }.

(* ================================================================= *)
(** ** The collaborators *)

(** The asynchronous iterator [team.run_stream(task=...)] returns: it
    yields messages one at a time and then stops, or raises. *)
Inductive Stream : Type :=
| StopAsyncIteration
| StreamRaises (e : exn)
| Yield (msg : Msg) (rest : Stream).

Record Team : Type := mkTeam { run_stream : str -> Stream }.

(** What a run reads from outside: the environment variable
    [OPENAIROUTER_API_KEY], the AutoGen constructors behind
    [create_literature_review_team] (model name, key, [max_turns]), the
    clocks: the [n]-th reading of [time.time()] and of [datetime.now()],
    and the room the interpreter's recursion limit leaves: the run itself is
    within the limit, and [recursion_room] is the number of calls of
    [extract_message_content] that may nest below the one [run_review]
    makes. *)
Record World : Type :=
  mkWorld {
      getenv_api_key : option str;
      RoundRobinGroupChat : str -> option str -> Z -> result Team;
      time_time : nat -> float;
      datetime_now : nat -> datetime;
      recursion_room : nat
    }.

(** [a or b] on optional strings. *)
Definition or_else (a b : option str) : option str :=
  match a with
  | Some s => if nonempty s then a else b
  | None => b
  end.

(** [agent_backend.create_literature_review_team]; [max_turns] has the
    default 2 there. *)
Definition create_literature_review_team
  (w : World) (model_name : str) (api_key : option str) (max_turns : Z)
  : result Team :=
  RoundRobinGroupChat w model_name (or_else api_key (getenv_api_key w)) max_turns.

(** [LiteratureReviewService.__init__] *)
Definition new_service (w : World) (api_key : option str)
  : result LiteratureReviewService :=
  match or_else api_key (getenv_api_key w) with
  | Some k => if nonempty k then Ok (mkService k)
              else Err (Exception (lit "API key is required"))
  | None => Err (Exception (lit "API key is required"))
  end.

(** The subscriber: called with an event, it returns ([None]) or raises;
    it may depend on the events it was called with before. *)
Definition Subscriber := list ReviewProgress -> ReviewProgress -> option exn.

(* ================================================================= *)
(** ** run_review *)

(** Computations over a state: they read and change it, and return or
    raise. *)
Definition Comp (S A : Type) : Type := S -> S * result A.

(** Computations of a run: the state is the list of events the subscriber
    has been called with. *)
Definition Run (A : Type) : Type := Comp (list ReviewProgress) A.

Definition ret {S A} (a : A) : Comp S A := fun st => (st, Ok a).

Definition raise {S A} (e : exn) : Comp S A := fun st => (st, Err e).

Definition bind {S A B} (c : Comp S A) (k : A -> Comp S B) : Comp S B :=
  fun st =>
    match c st with
    | (st', Ok a) => k a st'
    | (st', Err e) => (st', Err e)
    end.

Definition try_except {S A} (c : Comp S A) (h : exn -> Comp S A) : Comp S A :=
  fun st =>
    match c st with
    | (st', Ok a) => (st', Ok a)
    | (st', Err e) => h e st'
    end.

Definition lift {S A} (r : result A) : Comp S A := fun st => (st, r).

(** Computations of [run_review] itself, which also reads [time.time()]:
    the state holds, next to the events, the number of readings taken. *)
Definition Timed (A : Type) : Type := Comp (list ReviewProgress * nat) A.

(** A computation that does not read [time.time()]. *)
Definition untimed {A} (c : Run A) : Timed A :=
  fun st =>
    match c (fst st) with
    | (log', r) => ((log', snd st), r)
    end.

Declare Scope run_scope.
Delimit Scope run_scope with run.
Notation "x <- c ;; k" := (bind c (fun x => k))
  (at level 61, c at next level, right associativity) : run_scope.
Notation "c ;; k" := (bind c (fun _ => k))
  (at level 61, right associativity) : run_scope.
Open Scope run_scope.

Section Run.

Variable w : World.
Variable self : LiteratureReviewService.
Variable progress_callback : option Subscriber.

Definition update_progress (status : ReviewStatus) (message : str) (percent : Z)
  : Run unit :=
  match progress_callback with
  | None => ret tt
  | Some callback =>
      fun log =>
        let event :=
          mkReviewProgress status message percent (datetime_now w (length log)) in
        (log ++ [event],
         match callback log event with
         | None => Ok tt
         | Some e => Err e
         end)
  end.

(** The body of [async for msg in team.run_stream(task=task)]. *)
Fixpoint consume (stream : Stream) (all_messages : list str) (message_count : Z)
  : Run (list str) :=
  match stream with
  | StopAsyncIteration => ret all_messages
  | StreamRaises e => raise e
  | Yield msg rest =>
      let message_count := (message_count + 1)%Z in
      content <- lift (extract_message_content (S (recursion_room w)) msg) ;;
      let all_messages :=
        if nonempty content then all_messages ++ [content] else all_messages in
      (if (message_count =? 1)%Z then
         update_progress SEARCHING (lit "Papers found, starting analysis...") 60
       else if (message_count >=? 2)%Z then
         update_progress SUMMARIZING (lit "Generating final review...") 80
       else ret tt) ;;
      consume rest all_messages message_count
  end.

Definition task_of (config : ReviewConfig) : str :=
  lit "conduct a literature review on the topic - " ++ topic config
  ++ lit " and return exactly " ++ str_of_int (max_results config)
  ++ lit " papers".

(** [time.time()]: the next reading. *)
Definition time_now : Timed float :=
  fun st => ((fst st, S (snd st)), Ok (time_time w (snd st))).

Definition run_review_timed (config : ReviewConfig) : Timed ReviewResult :=
  start_time <- time_now ;;
  try_except
    (untimed (update_progress INITIALIZING (lit "Initializing agents...") 10) ;;
     team <- lift (create_literature_review_team
                     w (model_name config) (Some (self_api_key self)) 2) ;;
     untimed (update_progress SEARCHING
                (lit "Searching for papers on '" ++ topic config ++ lit "'...") 25) ;;
     let task := task_of config in
     untimed (update_progress SUMMARIZING
                (lit "Analyzing papers and generating review...") 50) ;;
     all_messages <- untimed (consume (run_stream team task) [] 0) ;;
     let raw_content := join [nl; nl] all_messages in
     let cleaned_content := clean_content raw_content in
     now <- time_now ;;
     let execution_time := PrimFloat.sub now start_time in
     untimed (update_progress COMPLETED
                (lit "Literature review completed successfully!") 100) ;;
     ret (mkReviewResult true cleaned_content [] execution_time
            (Some config) (max_results config)))
    (fun e =>
       now <- time_now ;;
       let execution_time := PrimFloat.sub now start_time in
       let error_msg := lit "Error during literature review: " ++ exn_str e in
       untimed (update_progress ERROR error_msg 0) ;;
       ret (mkReviewResult false [] error_msg execution_time
              (Some config) 0)).

(** A run starts with no reading of [time.time()] taken; what it leaves is
    the events delivered and what it returns or raises. *)
Definition run_review (config : ReviewConfig) : Run ReviewResult :=
  fun log =>
    match run_review_timed config (log, 0) with
    | (st, r) => (fst st, r)
    end.

End Run.

(* ================================================================= *)
(** ** agent_backend.arxive_search *)

(** What the arXiv client hands back for a query: the fields of a result
    that [arxive_search] reads. *)
Record Author : Type := mkAuthor { name : str }.

Record ArxivResult : Type :=
  mkArxivResult {
      title : str;
      authors : list Author;
      published : datetime;
      summary : str;
      pdf_url : option str
    }.

(** The values of a paper record, and the record: a dict, as the list of
    its items in insertion order. *)
Inductive item_value : Type :=
| ItemStr (s : str)
| ItemNames (l : list str)
| ItemNone.

Definition paper := list (str * item_value).

(** [client_results query max_result] stands for
    [client.results(arxiv.Search(query, max_results, Relevance))] and
    [isoformat] for [datetime.isoformat]. *)
Definition arxive_search
  (client_results : str -> Z -> list ArxivResult) (isoformat : datetime -> str)
  (query : str) (max_result : Z) : list paper :=
  map (fun result =>
         [ (lit "title", ItemStr (title result));
           (lit "authors", ItemNames (map name (authors result)));
           (lit "published", ItemStr (isoformat (published result)));
           (lit "summary", ItemStr (summary result));
           (lit "pdf_url",
             match pdf_url result with
             | Some u => ItemStr u
             | None => ItemNone
             end) ])
      (client_results query max_result).

(* ================================================================= *)
(** ** frontend/streamlit.py *)

(** The class of the status line in [render_progress]. *)
Definition status_class (latest_progress : ReviewProgress) : str :=
  match status latest_progress with
  | ERROR => lit "status-error"
  | COMPLETED => lit "status-completed"
  | _ => lit "status-processing"
  end.

(** [progress_list[-5:]] *)
Definition last_five (progress_list : list ReviewProgress) : list ReviewProgress :=
  skipn (length progress_list - 5) progress_list.

(** What [render_progress] puts on the page, as far as it depends on the
    list: nothing for an empty list; otherwise the percentage of the bar
    (shown divided by 100), the class and the message of the status line,
    both of the latest event, and the steps of the detail panel,
    [reversed(progress_list[-5:])], shown when the list has more than one
    event.  The label of the status and the clock time of each step are
    formatted from the same events and left out. *)
Record ProgressView : Type :=
  mkProgressView {
      bar_percent : Z;
      line_class : str;
      line_message : str;
      detail_steps : list ReviewProgress
    }.

Definition render_progress (progress_list : list ReviewProgress)
  : option ProgressView :=
  match rev progress_list with
  | [] => None
  | latest_progress :: _ =>
      Some (mkProgressView
              (progress_percent latest_progress)
              (status_class latest_progress)
              (message latest_progress)
              (if 1 <? length progress_list then rev (last_five progress_list)
               else []))
  end.

(** The branch of [main] on the start button: a warning and no run for a
    blank topic, otherwise the configuration handed to [run_review];
    [env_key] is [os.getenv("OPENAIROUTER_API_KEY")]. *)
Definition start_config (topic : str) (max_papers : Z) (env_key : option str)
  : option ReviewConfig :=
  if negb (nonempty (strip topic)) then None
  else Some (mkReviewConfig (strip topic) max_papers
               (lit "deepseek/deepseek-chat") 2 env_key).

(* ================================================================= *)
(** * Vocabulary of the properties *)

(** ** Strings *)

(** No whitespace at the left, resp. right, end. *)
Definition lstripped (s : str) : Prop :=
  match s with [] => True | c :: _ => isspace c = false end.

(** [strip] leaves the string as it is. *)
Definition stripped (s : str) : Prop := strip s = s.

(** [a] ends before the first occurrence of [sep] in [a ++ sep ++ _]. *)
Definition first_at (sep a : str) : Prop := ~ occurs sep (a ++ removelast sep).

(** ** Classification and aggregation *)

(** The markers of both predicates. *)
Definition indicators : list str := function_indicators ++ json_indicators.

(** Either predicate holds of the section. *)
Definition noise (section : str) : bool :=
  is_function_call_message (PyStr section) || is_raw_json_data (PyStr section).

(** The section passes the first two tests of the loop of [clean_content]. *)
Definition keep (section : str) : bool := nonempty section && negb (noise section).

(** First occurrences of the elements of [l] that are not in [seen]. *)
Fixpoint dedup_from (seen l : list str) : list str :=
  match l with
  | [] => []
  | x :: r =>
      if existsb (eqb x) seen then dedup_from seen r
      else x :: dedup_from (x :: seen) r
  end.

(** [l1] is [l2] with some elements left out, the order kept. *)
Inductive subseq : list str -> list str -> Prop :=
| subseq_nil : subseq [] []
| subseq_skip x l1 l2 : subseq l1 l2 -> subseq l1 (x :: l2)
| subseq_take x l1 l2 : subseq l1 l2 -> subseq (x :: l1) (x :: l2).

(** What the loop keeps: non-empty stripped sections that are not noise
    and hold no blank line. *)
Definition good_section (sec : str) : Prop :=
  sec <> [] /\ stripped sec /\ noise sec = false /\ ~ occurs [nl; nl] sec.

(** The lines kept: from the first line that opens the review on, each
    stripped. *)
Fixpoint from_start (lines : list str) : list str :=
  match lines with
  | [] => []
  | l :: rest =>
      if starts_review (strip l) then map strip (l :: rest) else from_start rest
  end.

(** Every line of the text is stripped. *)
Definition line_clean (s : str) : Prop := Forall stripped (split [nl] s).

(** The sections of a text: its blank-line separated parts, stripped, the
    empty ones left out. *)
Definition sections (s : str) : list str :=
  filter nonempty (map strip (split [nl; nl] s)).

(** The guarantee of the aggregator as the specification words it: no
    section of the output is noise, no two sections of the output are equal,
    and the sections of the output come in the order of the input. *)
Definition stated_guarantee (blocks : list str) : Prop :=
  let out := aggregate blocks in
  Forall (fun sec => noise sec = false) (sections out)
  /\ NoDup (sections out)
  /\ subseq (sections out) (map strip (split [nl; nl] (join [nl; nl] blocks))).

(** What C4 says of a text: every line after the line that opens the review
    is a line of the output, as it stands in the input. *)
Definition kept_verbatim (content : str) : Prop :=
  forall (pre post : list str) (l0 l : str),
    split [nl] content = pre ++ l0 :: post ->
    Forall (fun x => starts_review (strip x) = false) pre ->
    starts_review (strip l0) = true ->
    In l post ->
    In l (split [nl] (extract_final_review_only content)).

(** ** The resolution order of the specification *)

Inductive field : Type :=
| FContent | FSummary | FMessages | FInnerMessages | FText | FMessage.

Definition resolution_order : list field :=
  [FContent; FSummary; FMessages; FInnerMessages; FText; FMessage].

(** What probing a field gives: it is present and non-empty, it is absent
    or empty, or the access fails. *)
Inductive probe_result : Type := Matched | Unmatched | Failing.

Definition probe_value (a : attr value) : probe_result :=
  match a with
  | Absent => Unmatched
  | Raises _ => Failing
  | Has v => if truthy v then Matched else Unmatched
  end.

Definition probe_container (a : attr (container Msg)) : probe_result :=
  match a with
  | Absent => Unmatched
  | Raises _ => Failing
  | Has c => if container_truthy c then Matched else Unmatched
  end.

Definition probe (msg : Msg) (f : field) : probe_result :=
  match f with
  | FContent => probe_value (a_content msg)
  | FSummary => probe_value (a_summary msg)
  | FMessages => probe_container (a_messages msg)
  | FInnerMessages => probe_container (a_inner_messages msg)
  | FText => probe_value (a_text msg)
  | FMessage => probe_value (a_message msg)
  end.

(** The first field of the list that is not passed over, with what probing
    it gave. *)
Fixpoint first_decisive (msg : Msg) (fields : list field)
  : option (field * probe_result) :=
  match fields with
  | [] => None
  | f :: rest =>
      match probe msg f with
      | Unmatched => first_decisive msg rest
      | r => Some (f, r)
      end
  end.

(** The string of a text field. *)
Definition field_text (msg : Msg) (f : field) : option str :=
  let shown (a : attr value) :=
    match a with Has v => Some (to_str v) | _ => None end in
  match f with
  | FContent => shown (a_content msg)
  | FSummary => shown (a_summary msg)
  | FText => shown (a_text msg)
  | FMessage => shown (a_message msg)
  | _ => None
  end.

(** The message a container field hands over: the last element of a list,
    or the value itself when it is not a list. *)
Definition last_of (a : attr (container Msg)) : option Msg :=
  match a with
  | Has (ListOf _ last_msg) => Some last_msg
  | Has (NotList last_msg) => Some last_msg
  | _ => None
  end.

Definition field_last (msg : Msg) (f : field) : option Msg :=
  match f with
  | FMessages => last_of (a_messages msg)
  | FInnerMessages => last_of (a_inner_messages msg)
  | _ => None
  end.

(** [resolves msg s]: the specification resolves [msg] to [s]. *)
Inductive resolves : Msg -> str -> Prop :=
| resolves_none msg :
    first_decisive msg resolution_order = None -> resolves msg []
| resolves_failure msg f :
    first_decisive msg resolution_order = Some (f, Failing) -> resolves msg []
| resolves_text msg f s :
    first_decisive msg resolution_order = Some (f, Matched) ->
    field_text msg f = Some s -> resolves msg s
| resolves_nested msg f m s :
    first_decisive msg resolution_order = Some (f, Matched) ->
    field_last msg f = Some m -> resolves m s -> resolves msg s.

(** The calls of [extract_message_content] that resolving [msg] nests, the
    one on [msg] included: one more than for the message a container hands
    over, when the first field that is not passed over is a container. *)
Fixpoint call_depth (msg : Msg) : nat :=
  S (match probe_value (a_content msg), probe_value (a_summary msg) with
     | Unmatched, Unmatched =>
         match probe_container (a_messages msg) with
         | Matched =>
             match a_messages msg with
             | Has (ListOf _ last_msg) => call_depth last_msg
             | Has (NotList last_msg) => call_depth last_msg
             | _ => 0
             end
         | Unmatched =>
             match probe_container (a_inner_messages msg) with
             | Matched =>
                 match a_inner_messages msg with
                 | Has (ListOf _ last_msg) => call_depth last_msg
                 | Has (NotList last_msg) => call_depth last_msg
                 | _ => 0
                 end
             | _ => 0
             end
         | Failing => 0
         end
     | _, _ => 0
     end).

(** What a call returns, or raises in its caller, by the calls the limit
    still admits. *)
Definition call_outcome (depth : nat) (msg : Msg) : Prop :=
  match depth with
  | O => extract_message_content depth msg = Err RecursionError
  | S _ =>
      exists s,
        extract_message_content depth msg = Ok s
        /\ (call_depth msg <= depth -> resolves msg s)
        /\ (depth < call_depth msg -> s = [])
  end.

(** ** Runs *)

(** What a progress event shows: its status and its percentage. *)
Definition shown (ev : ReviewProgress) : ReviewStatus * Z :=
  (status ev, progress_percent ev).

(** The subscriber returns normally from every event that is not an error
    event, resp. from every event. *)
Definition quiet_before_error (cb : Subscriber) : Prop :=
  forall log ev, status ev <> ERROR -> cb log ev = None.

Definition quiet (progress_callback : option Subscriber) : Prop :=
  forall cb log ev, progress_callback = Some cb -> cb log ev = None.

(** The messages a stream yields before it stops or raises, their number,
    and the exception of a stream that raises. *)
Fixpoint stream_yielded (stream : Stream) : list Msg :=
  match stream with
  | StopAsyncIteration => []
  | StreamRaises _ => []
  | Yield msg rest => msg :: stream_yielded rest
  end.

Definition stream_length (stream : Stream) : nat := length (stream_yielded stream).

Fixpoint stream_failure (stream : Stream) : option exn :=
  match stream with
  | StopAsyncIteration => None
  | StreamRaises e => Some e
  | Yield _ rest => stream_failure rest
  end.

(** The normalised text of a message, and the non-empty ones of a list of
    messages: the blocks handed to the aggregation. *)
Definition normalized (w : World) (msg : Msg) : str :=
  match extract_message_content (S (recursion_room w)) msg with
  | Ok s => s
  | Err _ => []
  end.

Definition blocks_of (w : World) (msgs : list Msg) : list str :=
  filter nonempty (map (normalized w) msgs).

(** What the loop shows for [k] messages when [n] were consumed before. *)
Definition loop_shown (n : Z) (k : nat) : list (ReviewStatus * Z) :=
  match k with
  | O => []
  | S k' =>
      if (n =? 0)%Z then (SEARCHING, 60%Z) :: repeat (SUMMARIZING, 80%Z) k'
      else repeat (SUMMARIZING, 80%Z) k
  end.

(** ** Concrete collaborators *)

Definition text_message (s : str) : Msg :=
  mkMsg (Has (PyStr s)) Absent Absent Absent Absent Absent.

Definition bare_message : Msg :=
  mkMsg Absent Absent Absent Absent Absent Absent.

(** A message whose text sits two containers down. *)
Definition nested_message : Msg :=
  mkMsg Absent Absent
    (Has (ListOf [text_message (lit "Earlier text")]
            (mkMsg Absent Absent Absent
               (Has (NotList (text_message (lit "Inner text"))))
               Absent Absent)))
    Absent Absent Absent.

(** A world whose team is built and yields the given stream; the clock
    reads 100.0 at the start, 103.5 at the second reading and 107.0
    afterwards. *)
Definition world_of (stream : Stream) : World :=
  mkWorld None
    (fun _ _ _ => Ok (mkTeam (fun _ => stream)))
    (fun n => match n with O => 100%float | 1 => 103.5%float | _ => 107%float end)
    (fun n => Z.of_nat n)
    900.

(** A world in which building the team raises [e]. *)
Definition world_without_team (e : exn) : World :=
  mkWorld None
    (fun _ _ _ => Err e)
    (fun n => match n with O => 100%float | 1 => 103.5%float | _ => 107%float end)
    (fun n => Z.of_nat n)
    900.

Definition demo_service : LiteratureReviewService := mkService (lit "sk-demo").

Definition demo_config : ReviewConfig :=
  mkReviewConfig (lit "federated learning") 3 (lit "deepseek/deepseek-chat") 2 None.

Definition three_messages : Stream :=
  Yield (text_message (lit "Intro text"))
    (Yield (text_message (lit "Literature Review:" ++ [nl] ++ lit "- Paper A"))
       (Yield bare_message StopAsyncIteration)).

Definition one_message_then_failure : Stream :=
  Yield (text_message (lit "Intro text"))
    (StreamRaises (Exception (lit "connection reset"))).

(** A subscriber that records and returns, and one that raises when it is
    handed an error event. *)
Definition recorder : Subscriber := fun _ _ => None.

Definition fragile : Subscriber :=
  fun _ ev =>
    match status ev with
    | ERROR => Some (Exception (lit "display closed"))
    | _ => None
    end.

(** ** The statements on runs that fail as they stand *)

(** The progress sequences as the specification states them. *)
Definition stated_progress (w : World) (self : LiteratureReviewService)
  (cb : Subscriber) (config : ReviewConfig) : Prop :=
  forall team,
    create_literature_review_team w (model_name config) (Some (self_api_key self)) 2
    = Ok team ->
    (forall m1 m2 m3,
        run_stream team (task_of config)
        = Yield m1 (Yield m2 (Yield m3 StopAsyncIteration)) ->
        map shown (fst (run_review w self (Some cb) config []))
        = [(INITIALIZING, 10); (SEARCHING, 25); (SEARCHING, 60);
           (SUMMARIZING, 80); (SUMMARIZING, 80); (COMPLETED, 100)]%Z)
    /\ (forall m1 e,
           run_stream team (task_of config) = Yield m1 (StreamRaises e) ->
           map shown (fst (run_review w self (Some cb) config []))
           = [(INITIALIZING, 10); (SEARCHING, 25); (SEARCHING, 60); (ERROR, 0)]%Z).

(** The text of the failure report. *)
Definition error_text (e : exn) : str :=
  lit "Error during literature review: " ++ exn_str e.

(** The result of a failed run. *)
Definition failed_result (w : World) (config : ReviewConfig) (e : exn)
  : ReviewResult :=
  mkReviewResult false [] (error_text e)
    (PrimFloat.sub (time_time w 1) (time_time w 0)) (Some config) 0.

(** What C2 says of a run in which [e] is raised: the run returns a result
    that reports it. *)
Definition stated_failure_report (w : World) (self : LiteratureReviewService)
  (progress_callback : option Subscriber) (config : ReviewConfig) (e : exn)
  : Prop :=
  exists log r,
    run_review w self progress_callback config [] = (log, Ok r)
    /\ success r = false
    /\ error_message r = error_text e.

(** A result without its [config] field. *)
Definition without_config (r : result ReviewResult) : result ReviewResult :=
  match r with
  | Ok a =>
      Ok (mkReviewResult (success a) (content a) (error_message a)
            (execution_time a) None (papers_found a))
  | Err e => Err e
  end.

(** ** Further vocabulary on runs *)

(** The result of a failed run whose handler takes the [n]-th reading of
    [time.time()]. *)
Definition failed_result_at (n : nat) (w : World) (config : ReviewConfig)
  (e : exn) : ReviewResult :=
  mkReviewResult false [] (error_text e)
    (PrimFloat.sub (time_time w n) (time_time w 0)) (Some config) 0.

(** The parts of [run_review] between its readings of [time.time()]: the
    [try] block up to the end of the loop, the rest of the [try] block after
    its reading, and the [except] block after its reading, the [n]-th. *)
Definition collect (w : World) (self : LiteratureReviewService)
  (progress_callback : option Subscriber) (config : ReviewConfig)
  : Run (list str) :=
  update_progress w progress_callback INITIALIZING
    (lit "Initializing agents...") 10 ;;
  team <- lift (create_literature_review_team
                  w (model_name config) (Some (self_api_key self)) 2) ;;
  update_progress w progress_callback SEARCHING
    (lit "Searching for papers on '" ++ topic config ++ lit "'...") 25 ;;
  update_progress w progress_callback SUMMARIZING
    (lit "Analyzing papers and generating review...") 50 ;;
  consume w progress_callback (run_stream team (task_of config)) [] 0.

Definition complete (w : World) (progress_callback : option Subscriber)
  (config : ReviewConfig) (all_messages : list str) : Run ReviewResult :=
  update_progress w progress_callback COMPLETED
    (lit "Literature review completed successfully!") 100 ;;
  ret (mkReviewResult true (clean_content (join [nl; nl] all_messages)) []
         (PrimFloat.sub (time_time w 1) (time_time w 0))
         (Some config) (max_results config)).

Definition report_failure (w : World) (progress_callback : option Subscriber)
  (config : ReviewConfig) (n : nat) (e : exn) : Run ReviewResult :=
  update_progress w progress_callback ERROR (error_text e) 0 ;;
  ret (failed_result_at n w config e).

(** A subscriber that raises when it is handed the completion event. *)
Definition fragile_at_completion : Subscriber :=
  fun _ ev =>
    match status ev with
    | COMPLETED => Some (Exception (lit "display closed"))
    | _ => None
    end.

(** The key can be used: it is a non-empty string. *)
Definition usable (k : option str) : bool :=
  match k with Some s => nonempty s | None => false end.

(** The result the collaborators fix: a failure report when building the
    team or reading the stream raises, the cleaned aggregation otherwise. *)
Definition expected_result (w : World) (self : LiteratureReviewService)
  (cfg : ReviewConfig) : ReviewResult :=
  match create_literature_review_team w (model_name cfg)
          (Some (self_api_key self)) 2 with
  | Err e => failed_result w cfg e
  | Ok team =>
      match stream_failure (run_stream team (task_of cfg)) with
      | Some e => failed_result w cfg e
      | None =>
          mkReviewResult true
            (aggregate (blocks_of w (stream_yielded (run_stream team (task_of cfg)))))
            [] (PrimFloat.sub (time_time w 1) (time_time w 0))
            (Some cfg) (max_results cfg)
      end
  end.

(** The world with another value of the environment variable. *)
Definition with_env (w : World) (key : option str) : World :=
  mkWorld key (RoundRobinGroupChat w) (time_time w) (datetime_now w)
    (recursion_room w).

(** The events a run shows, by what its collaborators do. *)
Definition expected_shown (w : World) (self : LiteratureReviewService)
  (cfg : ReviewConfig) : list (ReviewStatus * Z) :=
  match create_literature_review_team w (model_name cfg)
          (Some (self_api_key self)) 2 with
  | Err _ => [(INITIALIZING, 10); (ERROR, 0)]%Z
  | Ok team =>
      [(INITIALIZING, 10); (SEARCHING, 25); (SUMMARIZING, 50)]%Z
      ++ match stream_length (run_stream team (task_of cfg)) with
         | O => []
         | S k => (SEARCHING, 60%Z) :: repeat (SUMMARIZING, 80%Z) k
         end
      ++ [match stream_failure (run_stream team (task_of cfg)) with
          | None => (COMPLETED, 100%Z)
          | Some _ => (ERROR, 0%Z)
          end]
  end.

(* ================================================================= *)
(** * Properties *)

(** ** Substrings *)

Lemma prefixb_spec (p s : str) :
  prefixb p s = true <-> exists b, s = p ++ b.
Proof.
  revert s; induction p as [|a p IH]; intros s; simpl.
  - split; [intros _; now exists s | reflexivity].
  - destruct s as [|b s].
    + split; [discriminate | intros [t Ht]; discriminate].
    + rewrite andb_true_iff, N.eqb_eq, IH. split.
      * intros [-> [t ->]]. now exists t.
      * intros [t Ht]. injection Ht as -> ->. split; [reflexivity | now exists t].
Qed.

Lemma contains_unfold (p s : str) :
  contains p s =
    prefixb p s || match s with [] => false | _ :: s' => contains p s' end.
Proof. destruct s; reflexivity. Qed.

Lemma contains_spec (p s : str) : contains p s = true <-> occurs p s.
Proof.
  induction s as [|c s IH]; rewrite contains_unfold, orb_true_iff.
  - rewrite prefixb_spec. split.
    + intros [[b Hb] | H]; [|discriminate]. now exists [], b.
    + intros [a [b H]]. left. destruct a; [|discriminate]. now exists b.
  - rewrite prefixb_spec, IH. split.
    + intros [[b Hb] | [a [b Hb]]].
      * now exists [], b.
      * exists (c :: a), b. now rewrite Hb.
    + intros [a [b H]]. destruct a as [|x a].
      * left. now exists b.
      * right. injection H as _ H. now exists a, b.
Qed.

Lemma contains_false (p s : str) : contains p s = false <-> ~ occurs p s.
Proof.
  rewrite <- contains_spec. destruct (contains p s); split; intros H.
  - discriminate.
  - now destruct H.
  - discriminate.
  - reflexivity.
Qed.

Lemma occurs_refl (s : str) : occurs s s.
Proof. exists [], []. now rewrite app_nil_r. Qed.

Lemma occurs_trans (p t s : str) : occurs p t -> occurs t s -> occurs p s.
Proof.
  intros [a [b ->]] [c [d ->]]. exists (c ++ a), (b ++ d).
  now rewrite <- !app_assoc.
Qed.

Lemma occurs_app_l (p a b : str) : occurs p a -> occurs p (a ++ b).
Proof. intros H. apply occurs_trans with a; [assumption|]. now exists [], b. Qed.

Lemma occurs_app_r (p a b : str) : occurs p b -> occurs p (a ++ b).
Proof.
  intros H. apply occurs_trans with b; [assumption|].
  exists a, []. now rewrite app_nil_r.
Qed.

Lemma occurs_length (p s : str) : occurs p s -> length p <= length s.
Proof. intros [a [b ->]]. rewrite !length_app. lia. Qed.

Lemma occurs_nil_inv (p : str) : occurs p [] -> p = [].
Proof. intros H. apply occurs_length in H. now destruct p. Qed.

(** A substring that avoids the character [c] lies on one side of it. *)
Lemma occurs_across_char (m a b : str) (c : char) :
  m <> [] -> ~ In c m -> occurs m (a ++ c :: b) -> occurs m a \/ occurs m b.
Proof.
  intros Hm Hc [x [y H]]. symmetry in H.
  apply app_eq_app in H. destruct H as [l [[-> H] | [-> H]]].
  - destruct l as [|c' l]; simpl in H.
    + destruct m as [|c' m]; [contradiction|].
      injection H as <- _. exfalso. apply Hc. now left.
    + injection H as _ ->. right. now exists l, y.
  - apply app_eq_app in H. destruct H as [l2 [[-> H] | [-> H]]].
    + destruct l2 as [|c' l2]; simpl in H.
      * left. exists x, []. now rewrite !app_nil_r.
      * injection H as <- _. exfalso. apply Hc. apply in_or_app. right. now left.
    + left. now exists x, l2.
Qed.

Lemma occurs_across (m sep a b : str) :
  m <> [] -> sep <> [] -> (forall c, In c sep -> ~ In c m) ->
  occurs m (a ++ sep ++ b) -> occurs m a \/ occurs m b.
Proof.
  intros Hm. revert a. induction sep as [|c sep IH]; intros a Hne Hsep H.
  - contradiction.
  - simpl in H. apply occurs_across_char in H; [|assumption|apply Hsep; now left].
    destruct H as [H|H]; [now left|].
    destruct sep as [|c' sep]; [now right|].
    apply (IH []) in H; [|discriminate|intros d Hd; apply Hsep; now right].
    destruct H as [H|H]; [|now right].
    apply occurs_nil_inv in H. contradiction.
Qed.

(** ** Stripping *)

Lemma lstrip_lstripped (s : str) : lstripped (lstrip s).
Proof.
  induction s as [|c s IH]; simpl; [exact I|].
  destruct (isspace c) eqn:E; [assumption | exact E].
Qed.

Lemma lstrip_id (s : str) : lstripped s -> lstrip s = s.
Proof. destruct s as [|c s]; simpl; [reflexivity|]. now intros ->. Qed.

Lemma lstrip_idem (s : str) : lstrip (lstrip s) = lstrip s.
Proof. apply lstrip_id, lstrip_lstripped. Qed.

Lemma lstrip_suffix (s : str) : exists w, s = w ++ lstrip s.
Proof.
  induction s as [|c s [w IH]]; simpl; [now exists []|].
  destruct (isspace c); [|now exists []].
  exists (c :: w). simpl. now rewrite <- IH.
Qed.

Lemma lstrip_snoc (u : str) (c : char) :
  lstrip (u ++ [c]) =
    match lstrip u with
    | [] => if isspace c then [] else [c]
    | _ :: _ => lstrip u ++ [c]
    end.
Proof.
  induction u as [|d u IH]; simpl; [reflexivity|].
  destruct (isspace d); [exact IH | reflexivity].
Qed.

Lemma rstrip_nil : rstrip [] = [].
Proof. reflexivity. Qed.

Lemma rstrip_cons (c : char) (t : str) :
  rstrip (c :: t) =
    match rstrip t with
    | [] => if isspace c then [] else [c]
    | _ :: _ => c :: rstrip t
    end.
Proof.
  unfold rstrip. simpl rev. rewrite lstrip_snoc.
  destruct (lstrip (rev t)) as [|x v] eqn:E.
  - simpl. now destruct (isspace c).
  - rewrite rev_app_distr. simpl rev at 1. simpl.
    destruct (rev v ++ [x]) eqn:E2; [now destruct (rev v)|reflexivity].
Qed.

Lemma rstrip_app (x y : str) :
  rstrip (x ++ y) =
    match rstrip y with
    | [] => rstrip x
    | _ :: _ => x ++ rstrip y
    end.
Proof.
  induction x as [|c x IH]; simpl.
  - now destruct (rstrip y).
  - rewrite rstrip_cons, IH. destruct (rstrip y) as [|d r].
    + now rewrite rstrip_cons.
    + now destruct x.
Qed.

Lemma rstrip_single (c : char) : rstrip [c] = if isspace c then [] else [c].
Proof. now rewrite rstrip_cons, rstrip_nil. Qed.

Lemma rstrip_snoc (t : str) (c : char) :
  rstrip (t ++ [c]) = if isspace c then rstrip t else t ++ [c].
Proof. rewrite rstrip_app, rstrip_single. now destruct (isspace c). Qed.

Lemma rstrip_prefix (s : str) : exists w, s = rstrip s ++ w.
Proof.
  induction s as [|c s [w IH]]; [now exists []|].
  rewrite rstrip_cons. destruct (rstrip s) as [|d r].
  - destruct (isspace c); [now exists (c :: s)|].
    exists s. reflexivity.
  - exists w. simpl. f_equal. exact IH.
Qed.

Lemma rstrip_idem (s : str) : rstrip (rstrip s) = rstrip s.
Proof. unfold rstrip. now rewrite rev_involutive, lstrip_idem. Qed.

Lemma rstrip_lstripped (s : str) : lstripped s -> lstripped (rstrip s).
Proof.
  destruct s as [|c s]; [intros; exact I|]. simpl. intros Hc.
  rewrite rstrip_cons. destruct (rstrip s); [rewrite Hc|]; exact Hc.
Qed.

Lemma strip_lstripped (s : str) : lstripped (strip s).
Proof. apply rstrip_lstripped, lstrip_lstripped. Qed.

Lemma strip_idem (s : str) : strip (strip s) = strip s.
Proof.
  unfold strip at 1. rewrite (lstrip_id _ (strip_lstripped s)).
  unfold strip. apply rstrip_idem.
Qed.

Lemma stripped_strip (s : str) : stripped (strip s).
Proof. apply strip_idem. Qed.

Lemma stripped_nil : stripped [].
Proof. reflexivity. Qed.

Lemma stripped_lstrip (s : str) : stripped s -> lstrip s = s.
Proof.
  intros H. apply lstrip_id. rewrite <- H. apply strip_lstripped.
Qed.

Lemma stripped_rstrip (s : str) : stripped s -> rstrip s = s.
Proof.
  intros H. pose proof (stripped_lstrip _ H) as Hl.
  unfold stripped, strip in H. now rewrite Hl in H.
Qed.

Lemma stripped_intro (s : str) : lstrip s = s -> rstrip s = s -> stripped s.
Proof. intros Hl Hr. unfold stripped, strip. now rewrite Hl. Qed.

Lemma stripped_head (c : char) (s : str) : stripped (c :: s) -> isspace c = false.
Proof.
  intros H. pose proof (strip_lstripped (c :: s)) as L. now rewrite H in L.
Qed.

Lemma occurs_lstrip (s : str) : occurs (lstrip s) s.
Proof. destruct (lstrip_suffix s) as [w H]. exists w, []. now rewrite app_nil_r. Qed.

Lemma occurs_rstrip (s : str) : occurs (rstrip s) s.
Proof. destruct (rstrip_prefix s) as [w H]. now exists [], w. Qed.

Lemma occurs_strip (s : str) : occurs (strip s) s.
Proof.
  apply occurs_trans with (lstrip s); [apply occurs_rstrip | apply occurs_lstrip].
Qed.

Lemma isspace_nl : isspace nl = true.
Proof. reflexivity. Qed.

(** A non-empty prefix without whitespace at its left end shields the rest. *)
Lemma lstrip_app_stripped (x y : str) :
  x <> [] -> lstripped x -> lstrip (x ++ y) = x ++ y.
Proof.
  destruct x as [|c x]; [contradiction|]. simpl. now intros _ ->.
Qed.

Lemma rstrip_nonempty_app (x y : str) :
  rstrip y <> [] -> rstrip (x ++ y) = x ++ rstrip y.
Proof.
  intros H. rewrite rstrip_app. destruct (rstrip y); [contradiction|reflexivity].
Qed.

(** ** Finding and splitting *)

Lemma find_unfold (sep s : str) :
  find sep s =
    if prefixb sep s then Some 0
    else match s with [] => None | _ :: s' => option_map S (find sep s') end.
Proof. destruct s; reflexivity. Qed.

Lemma find_none_iff (sep s : str) : find sep s = None <-> ~ occurs sep s.
Proof.
  rewrite <- contains_false.
  induction s as [|c s IH]; rewrite find_unfold, contains_unfold.
  - destruct (prefixb sep []); simpl; split; intros H; congruence.
  - destruct (prefixb sep (c :: s)); simpl.
    + split; intros H; discriminate.
    + rewrite <- IH. destruct (find sep s); simpl; split; intros H; congruence.
Qed.

Lemma length_removelast_S (sep : str) :
  sep <> [] -> length sep = S (length (removelast sep)).
Proof.
  intros H. pose proof (f_equal (@length char) (app_removelast_last 0%N H)) as E.
  rewrite length_app in E. simpl in E. lia.
Qed.

Lemma first_at_nil (sep : str) : sep <> [] -> first_at sep [].
Proof.
  intros H Hocc. apply occurs_length in Hocc. simpl in Hocc.
  pose proof (length_removelast_S _ H). lia.
Qed.

Lemma first_at_no_sep (sep a : str) : first_at sep a -> ~ occurs sep a.
Proof. intros H Hocc. apply H. now apply occurs_app_l. Qed.

Lemma first_at_tail (sep a : str) (c : char) :
  first_at sep (c :: a) -> first_at sep a.
Proof. intros H Hocc. apply H. now apply (occurs_app_r sep [c]). Qed.

Lemma prefix_shorter (x y p t : str) :
  x ++ y = p ++ t -> length p <= length x -> exists u, x = p ++ u.
Proof.
  intros H Hlen. apply app_eq_app in H. destruct H as [l [[-> H] | [-> H]]].
  - now exists l.
  - rewrite length_app in Hlen. destruct l; [|simpl in Hlen; lia].
    exists []. now rewrite !app_nil_r.
Qed.

(** A prefix of [a ++ sep ++ b] that is [sep], with [a] non-empty, already
    lies in [a ++ removelast sep]. *)
Lemma prefix_in_front (sep a b : str) (c : char) :
  sep <> [] ->
  prefixb sep ((c :: a) ++ sep ++ b) = true ->
  occurs sep ((c :: a) ++ removelast sep).
Proof.
  intros Hne H. apply prefixb_spec in H. destruct H as [t Ht].
  rewrite (app_removelast_last 0%N Hne) in Ht at 1.
  rewrite <- (app_assoc (removelast sep)), app_assoc in Ht.
  apply prefix_shorter in Ht.
  - destruct Ht as [u Hu]. rewrite Hu. now exists [], u.
  - rewrite length_app. simpl. pose proof (length_removelast_S _ Hne). lia.
Qed.

Lemma find_at (sep a b : str) :
  sep <> [] -> first_at sep a -> find sep (a ++ sep ++ b) = Some (length a).
Proof.
  intros Hne. induction a as [|c a IH]; intros Ha; rewrite find_unfold.
  - simpl. replace (prefixb sep (sep ++ b)) with true; [reflexivity|].
    symmetry. apply prefixb_spec. now exists b.
  - destruct (prefixb sep ((c :: a) ++ sep ++ b)) eqn:E.
    + exfalso. apply Ha. now apply prefix_in_front with b.
    + simpl. rewrite IH; [reflexivity|]. now apply first_at_tail with c.
Qed.

Lemma find_Some (sep s : str) (i : nat) :
  sep <> [] -> find sep s = Some i ->
  exists a b, s = a ++ sep ++ b /\ length a = i /\ first_at sep a.
Proof.
  intros Hne. revert i. induction s as [|c s IH]; intros i; rewrite find_unfold.
  - destruct (prefixb sep []) eqn:E; [|discriminate].
    destruct sep; [contradiction | discriminate].
  - destruct (prefixb sep (c :: s)) eqn:E.
    + intros [= <-]. apply prefixb_spec in E. destruct E as [b Hb].
      exists [], b. repeat split; [exact Hb | now apply first_at_nil].
    + destruct (find sep s) as [j|]; [|discriminate]. simpl. intros [= <-].
      destruct (IH j eq_refl) as [a [b [-> [Hlen Ha]]]].
      exists (c :: a), b. repeat split; [simpl; now rewrite Hlen|].
      intros [x [y Hocc]]. destruct x as [|d x].
      * assert (prefixb sep ((c :: a) ++ sep ++ b) = true) as F;
          [|simpl in F; simpl in E; congruence].
        apply prefixb_spec.
        exists (y ++ [last sep 0%N] ++ b).
        rewrite (app_removelast_last 0%N Hne) at 1.
        rewrite <- (app_assoc (removelast sep)), app_assoc. rewrite Hocc.
        simpl. now rewrite <- !app_assoc.
      * injection Hocc as _ Hocc. apply Ha. now exists x, y.
Qed.

Lemma firstn_length_app (a r : str) : firstn (length a) (a ++ r) = a.
Proof. induction a; simpl; [reflexivity | now f_equal]. Qed.

Lemma skipn_length_app (a r : str) (n : nat) :
  skipn (length a + n) (a ++ r) = skipn n r.
Proof. induction a; simpl; [reflexivity | assumption]. Qed.

Lemma split_from_unfold (bound : nat) (sep s : str) :
  split_from bound sep s =
    match find sep s with
    | None => [s]
    | Some i =>
        firstn i s ::
          match bound with
          | O => []
          | S b => split_from b sep (skipn (i + length sep) s)
          end
    end.
Proof. destruct bound; reflexivity. Qed.

Lemma split_from_irrel (sep : str) (b1 b2 : nat) (s : str) :
  sep <> [] -> length s <= b1 -> length s <= b2 ->
  split_from b1 sep s = split_from b2 sep s.
Proof.
  intros Hne. revert b2 s. induction b1 as [|b1 IH]; intros b2 s H1 H2;
    rewrite (split_from_unfold _ sep s), (split_from_unfold b2 sep s);
    destruct (find sep s) as [i|] eqn:E; try reflexivity;
    destruct (find_Some _ _ _ Hne E) as [a [b [-> [Hlen Ha]]]];
    rewrite !length_app in H1, H2;
    assert (0 < length sep) by (destruct sep; [contradiction | simpl; lia]).
  - lia.
  - destruct b2 as [|b2]; [lia|]. f_equal. rewrite <- Hlen.
    replace (length a + length sep) with (length (a ++ sep))
      by now rewrite length_app.
    rewrite app_assoc, <- (Nat.add_0_r (length (a ++ sep))), skipn_length_app.
    simpl. apply IH; lia.
Qed.

Lemma split_none (sep s : str) : ~ occurs sep s -> split sep s = [s].
Proof.
  intros H. unfold split. rewrite split_from_unfold.
  apply find_none_iff in H. now rewrite H.
Qed.

Lemma split_app (sep a b : str) :
  sep <> [] -> first_at sep a -> split sep (a ++ sep ++ b) = a :: split sep b.
Proof.
  intros Hne Ha. unfold split. rewrite split_from_unfold, find_at by assumption.
  rewrite firstn_length_app. f_equal.
  replace (length a + length sep) with (length (a ++ sep) + 0)
    by (rewrite length_app; lia).
  rewrite (app_assoc a sep b), skipn_length_app. simpl.
  assert (0 < length sep) by (destruct sep; [contradiction | simpl; lia]).
  destruct (length ((a ++ sep) ++ b)) as [|n] eqn:E;
    rewrite !length_app in E; [lia|].
  apply split_from_irrel; [assumption | lia | lia].
Qed.

(** Induction along the pieces of [split]. *)
Lemma split_ind (sep : str) (P : str -> list str -> Prop) :
  sep <> [] ->
  (forall s, ~ occurs sep s -> P s [s]) ->
  (forall a b, first_at sep a -> P b (split sep b) ->
               P (a ++ sep ++ b) (a :: split sep b)) ->
  forall s, P s (split sep s).
Proof.
  intros Hne Hnone Hcut s.
  remember (length s) as n eqn:Hn. revert s Hn.
  induction n as [n IH] using lt_wf_ind. intros s Hn.
  destruct (find sep s) as [i|] eqn:E.
  - destruct (find_Some _ _ _ Hne E) as [a [b [-> [Hlen Ha]]]].
    rewrite split_app by assumption. apply Hcut; [assumption|].
    apply (IH (length b)); [|reflexivity].
    rewrite Hn, !length_app.
    assert (0 < length sep) by (destruct sep; [contradiction | simpl; lia]).
    lia.
  - apply find_none_iff in E. rewrite split_none by assumption. now apply Hnone.
Qed.

Lemma split_nonempty (sep s : str) : sep <> [] -> split sep s <> [].
Proof.
  intros Hne. apply (split_ind sep (fun _ l => l <> []) Hne); intros; discriminate.
Qed.

Lemma join_cons (sep x : str) (l : list str) :
  l <> [] -> join sep (x :: l) = x ++ sep ++ join sep l.
Proof. destruct l; [contradiction | reflexivity]. Qed.

Lemma join_split (sep s : str) : sep <> [] -> join sep (split sep s) = s.
Proof.
  intros Hne. apply (split_ind sep (fun s l => join sep l = s) Hne).
  - reflexivity.
  - intros a b _ IH. rewrite join_cons by now apply split_nonempty.
    now rewrite IH.
Qed.

Lemma occurs_in_join (sep x : str) (l : list str) :
  In x l -> occurs x (join sep l).
Proof.
  induction l as [|y l IH]; [contradiction|]. intros [-> | H].
  - destruct l; [apply occurs_refl|]. apply occurs_app_l, occurs_refl.
  - destruct l as [|z l]; [contradiction|].
    change (join sep (y :: z :: l)) with (y ++ sep ++ join sep (z :: l)).
    apply occurs_app_r, occurs_app_r, IH, H.
Qed.

Lemma split_piece_occurs (sep s p : str) :
  sep <> [] -> In p (split sep s) -> occurs p s.
Proof.
  intros Hne H. rewrite <- (join_split sep s Hne). now apply occurs_in_join.
Qed.

Lemma split_piece_no_sep (sep s : str) :
  sep <> [] -> Forall (fun p => ~ occurs sep p) (split sep s).
Proof.
  intros Hne. apply (split_ind sep (fun _ l => Forall (fun p => ~ occurs sep p) l) Hne).
  - intros s0 H. now constructor.
  - intros a b Ha IH. constructor; [now apply first_at_no_sep | assumption].
Qed.

Lemma split_join (sep : str) (l : list str) :
  sep <> [] -> l <> [] -> Forall (first_at sep) l -> split sep (join sep l) = l.
Proof.
  intros Hne. induction l as [|x l IH]; [contradiction|]. intros _ H.
  inversion H as [|? ? Hx Hl]; subst. destruct l as [|y l].
  - simpl. apply split_none. now apply first_at_no_sep.
  - change (join sep (x :: y :: l)) with (x ++ sep ++ join sep (y :: l)).
    rewrite split_app by assumption. f_equal. apply IH; [discriminate | assumption].
Qed.

(** A substring that avoids the characters of the separator lies in one of
    the joined strings. *)
Lemma occurs_join (m sep : str) (l : list str) :
  m <> [] -> sep <> [] -> (forall c, In c sep -> ~ In c m) ->
  occurs m (join sep l) -> exists x, In x l /\ occurs m x.
Proof.
  intros Hm Hne Hsep. induction l as [|x l IH]; intros H.
  - apply occurs_nil_inv in H. contradiction.
  - destruct l as [|y l].
    + exists x. split; [now left | exact H].
    + change (join sep (x :: y :: l)) with (x ++ sep ++ join sep (y :: l)) in H.
      apply occurs_across in H; try assumption. destruct H as [H|H].
      * exists x. split; [now left | exact H].
      * destruct (IH H) as [z [Hz Hoc]]. exists z. split; [now right | exact Hoc].
Qed.

(** Splitting at a single character distributes over a cut at it. *)
Lemma split_char_app (c : char) (a b : str) :
  split [c] (a ++ c :: b) = split [c] a ++ split [c] b.
Proof.
  assert ([c] <> []) as Hne by discriminate.
  apply (split_ind [c] (fun a l => split [c] (a ++ c :: b) = l ++ split [c] b) Hne).
  - intros s H. change (s ++ c :: b) with (s ++ [c] ++ b).
    rewrite split_app; [reflexivity | assumption|].
    unfold first_at. simpl. now rewrite app_nil_r.
  - intros a1 a2 Ha IH. rewrite <- !app_assoc. rewrite split_app by assumption.
    simpl. f_equal. exact IH.
Qed.

(** ** The classifier *)

Lemma any_in_spec (inds : list str) (s : str) :
  any_in inds s = true <-> exists m, In m inds /\ occurs m s.
Proof.
  unfold any_in. rewrite existsb_exists. split.
  - intros [m [Hin Hc]]. exists m. split; [assumption | now apply contains_spec].
  - intros [m [Hin Hc]]. exists m. split; [assumption | now apply contains_spec].
Qed.

Lemma is_function_call_message_str (s : str) :
  is_function_call_message (PyStr s) = any_in function_indicators s.
Proof. destruct s; reflexivity. Qed.

Lemma is_raw_json_data_str (s : str) :
  is_raw_json_data (PyStr s) = any_in json_indicators s.
Proof. destruct s; reflexivity. Qed.

Lemma noise_spec (s : str) :
  noise s = true <-> exists m, In m indicators /\ occurs m s.
Proof.
  unfold noise, indicators.
  rewrite orb_true_iff, is_function_call_message_str, is_raw_json_data_str.
  rewrite !any_in_spec. split.
  - intros [[m [Hin H]] | [m [Hin H]]]; exists m; split; try assumption;
      apply in_or_app; [now left | now right].
  - intros [m [Hin H]]. apply in_app_or in Hin.
    destruct Hin as [Hin|Hin]; [left | right]; now exists m.
Qed.

Lemma noise_false (s : str) :
  noise s = false <-> forall m, In m indicators -> ~ occurs m s.
Proof.
  split.
  - intros H m Hin Hocc. assert (noise s = true) as F; [|congruence].
    apply noise_spec. now exists m.
  - intros H. destruct (noise s) eqn:E; [|reflexivity].
    apply noise_spec in E. destruct E as [m [Hin Hocc]]. now apply H in Hocc.
Qed.

Lemma noise_factor (t s : str) : occurs t s -> noise s = false -> noise t = false.
Proof.
  rewrite !noise_false. intros Hts H m Hin Hocc.
  apply (H m Hin). now apply occurs_trans with t.
Qed.

(** No indicator is empty or holds a line feed. *)
Lemma indicator_shape (m : str) :
  In m indicators -> m <> [] /\ ~ In nl m.
Proof.
  assert (forallb (fun m => nonempty m && negb (existsb (N.eqb nl) m)) indicators
          = true) as H by (vm_compute; reflexivity).
  rewrite forallb_forall in H. intros Hin. specialize (H m Hin).
  apply andb_true_iff in H. destruct H as [H1 H2]. split.
  - intros ->. discriminate.
  - intros Hnl. apply negb_true_iff in H2.
    assert (existsb (N.eqb nl) m = true) as F; [|congruence].
    apply existsb_exists. exists nl. split; [assumption | apply N.eqb_refl].
Qed.

(** An indicator inside a text joined by line feeds lies inside one line. *)
Lemma indicator_in_join (m sep : str) (l : list str) :
  In m indicators -> sep <> [] -> (forall c, In c sep -> c = nl) ->
  occurs m (join sep l) -> exists x, In x l /\ occurs m x.
Proof.
  intros Hin Hne Hsep. destruct (indicator_shape m Hin) as [Hm Hnl].
  apply occurs_join; try assumption.
  intros c Hc. now rewrite (Hsep c Hc).
Qed.

Lemma noise_join (sep : str) (l : list str) :
  sep <> [] -> (forall c, In c sep -> c = nl) ->
  Forall (fun x => noise x = false) l -> noise (join sep l) = false.
Proof.
  intros Hne Hsep Hl. apply noise_false. intros m Hin Hocc.
  destruct (indicator_in_join m sep l Hin Hne Hsep Hocc) as [x [Hx Hox]].
  rewrite Forall_forall in Hl. specialize (Hl x Hx).
  rewrite noise_false in Hl. now apply (Hl m Hin).
Qed.

(** ** The loop of clean_content *)

Lemma eqb_spec (a b : str) : eqb a b = true <-> a = b.
Proof.
  unfold eqb. destruct (list_eq_dec N.eq_dec a b); split; congruence.
Qed.

Lemma mem_spec (x : str) (seen : list str) :
  existsb (eqb x) seen = true <-> In x seen.
Proof.
  rewrite existsb_exists. split.
  - intros [y [Hy E]]. apply eqb_spec in E. now subst.
  - intros H. exists x. split; [assumption | now apply eqb_spec].
Qed.

Lemma clean_fold (l : list str) (acc seen : list str) :
  fst (fold_left clean_step l (acc, seen))
  = acc ++ dedup_from seen (filter keep (map strip l)).
Proof.
  revert acc seen. induction l as [|x l IH]; intros acc seen; simpl.
  - now rewrite app_nil_r.
  - unfold keep at 1. fold (noise (strip x)).
    destruct (nonempty (strip x)); simpl; [|apply IH].
    destruct (noise (strip x)); simpl; [apply IH|].
    destruct (existsb (eqb (strip x)) seen); [apply IH|].
    rewrite IH, <- app_assoc. reflexivity.
Qed.

Lemma clean_sections_of_eq (content : str) :
  clean_sections_of content
  = dedup_from [] (filter keep (map strip (split [nl; nl] content))).
Proof. unfold clean_sections_of. now rewrite clean_fold. Qed.

Lemma dedup_from_in (seen l : list str) (x : str) :
  In x (dedup_from seen l) -> In x l /\ ~ In x seen.
Proof.
  revert seen. induction l as [|y l IH]; intros seen; simpl; [contradiction|].
  destruct (existsb (eqb y) seen) eqn:E.
  - intros H. destruct (IH _ H). split; [now right | assumption].
  - intros [<- | H].
    + split; [now left|]. intros Hin. apply mem_spec in Hin. congruence.
    + destruct (IH _ H) as [H1 H2]. split; [now right|].
      intros Hin. apply H2. now right.
Qed.

Lemma dedup_from_complete (seen l : list str) (x : str) :
  In x l -> In x seen \/ In x (dedup_from seen l).
Proof.
  revert seen. induction l as [|y l IH]; intros seen; simpl; [contradiction|].
  destruct (existsb (eqb y) seen) eqn:E.
  - intros [<- | H]; [left; now apply mem_spec | now apply IH].
  - intros [<- | H]; [right; now left|].
    destruct (IH (y :: seen) H) as [[<- | Hs] | Hd].
    + right. now left.
    + now left.
    + right. now right.
Qed.

Lemma dedup_from_NoDup (seen l : list str) : NoDup (dedup_from seen l).
Proof.
  revert seen. induction l as [|y l IH]; intros seen; simpl; [constructor|].
  destruct (existsb (eqb y) seen) eqn:E; [apply IH|].
  constructor; [|apply IH].
  intros Hin. apply dedup_from_in in Hin. destruct Hin as [_ Hn].
  apply Hn. now left.
Qed.

Lemma dedup_from_id (seen l : list str) :
  NoDup l -> (forall x, In x l -> ~ In x seen) -> dedup_from seen l = l.
Proof.
  revert seen. induction l as [|y l IH]; intros seen Hnd Hs; simpl; [reflexivity|].
  inversion Hnd as [|? ? Hy Hl]; subst.
  destruct (existsb (eqb y) seen) eqn:E.
  - apply mem_spec in E. exfalso. apply (Hs y); [now left | assumption].
  - f_equal. apply IH; [assumption|].
    intros x Hx [<- | Hin]; [contradiction|]. apply (Hs x); [now right | assumption].
Qed.

Lemma subseq_dedup_filter (seen l : list str) :
  subseq (dedup_from seen (filter keep l)) l.
Proof.
  revert seen. induction l as [|y l IH]; intros seen; simpl; [constructor|].
  destruct (keep y); simpl; [|constructor; apply IH].
  destruct (existsb (eqb y) seen); constructor; apply IH.
Qed.

Lemma clean_sections_good (content : str) :
  Forall good_section (clean_sections_of content).
Proof.
  rewrite clean_sections_of_eq. apply Forall_forall. intros sec Hin.
  apply dedup_from_in in Hin. destruct Hin as [Hin _].
  apply filter_In in Hin. destruct Hin as [Hin Hk].
  apply in_map_iff in Hin. destruct Hin as [p [<- Hp]].
  unfold keep in Hk. apply andb_true_iff in Hk. destruct Hk as [Hne Hno].
  apply negb_true_iff in Hno. repeat split.
  - intros E. rewrite E in Hne. discriminate.
  - apply stripped_strip.
  - assumption.
  - intros Hocc.
    assert ([nl; nl] <> []) as Hsep by discriminate.
    pose proof (split_piece_no_sep [nl; nl] content Hsep) as F.
    rewrite Forall_forall in F. apply (F p Hp).
    apply occurs_trans with (strip p); [assumption | apply occurs_strip].
Qed.

(** ** The loop of extract_final_review_only *)

Lemma starts_review_nil : starts_review [] = false.
Proof. reflexivity. Qed.

Lemma review_step_started (acc : list str) (x : str) :
  review_step (true, acc) x = (true, acc ++ [strip x]).
Proof. reflexivity. Qed.

Lemma review_step_waiting (acc : list str) (x : str) :
  review_step (false, acc) x =
    if starts_review (strip x) then (true, acc ++ [strip x]) else (false, acc).
Proof.
  unfold review_step. simpl negb.
  destruct (strip x) as [|c t]; [reflexivity|]. simpl nonempty. simpl negb.
  rewrite !andb_true_l.
  now destruct (starts_review (c :: t)).
Qed.

Lemma review_fold_started (l acc : list str) :
  fold_left review_step l (true, acc) = (true, acc ++ map strip l).
Proof.
  revert acc. induction l as [|x l IH]; intros acc; cbn [fold_left].
  - now rewrite app_nil_r.
  - rewrite review_step_started, IH, <- app_assoc. reflexivity.
Qed.

Lemma review_fold (l acc : list str) :
  snd (fold_left review_step l (false, acc)) = acc ++ from_start l.
Proof.
  revert acc. induction l as [|x l IH]; intros acc; cbn [fold_left].
  - now rewrite app_nil_r.
  - rewrite review_step_waiting. cbn [from_start].
    destruct (starts_review (strip x)).
    + rewrite review_fold_started, <- app_assoc. reflexivity.
    + apply IH.
Qed.

Lemma split_nl_nil : split [nl] [] = [[]].
Proof. reflexivity. Qed.

Lemma extract_final_review_only_eq (content : str) :
  extract_final_review_only content
  = strip (join [nl] (from_start (split [nl] content))).
Proof.
  unfold extract_final_review_only. destruct content as [|c content].
  - reflexivity.
  - simpl negb. cbv iota.
    pose proof (review_fold (split [nl] (c :: content)) []) as H.
    destruct (fold_left review_step (split [nl] (c :: content)) (false, []))
      as [started review_lines].
    simpl in H. now rewrite H.
Qed.

Lemma from_start_cut (pre post : list str) (l0 : str) :
  Forall (fun l => starts_review (strip l) = false) pre ->
  starts_review (strip l0) = true ->
  from_start (pre ++ l0 :: post) = map strip (l0 :: post).
Proof.
  intros Hpre H0. induction Hpre as [|l pre Hl _ IH]; simpl.
  - now rewrite H0.
  - now rewrite Hl.
Qed.

Lemma from_start_in (l : list str) (x : str) :
  In x (from_start l) -> exists y, In y l /\ x = strip y.
Proof.
  induction l as [|z l IH]; simpl; [contradiction|].
  destruct (starts_review (strip z)).
  - intros [<- | H].
    + exists z. split; [now left | reflexivity].
    + apply in_map_iff in H. destruct H as [y [<- Hy]].
      exists y. split; [now right | reflexivity].
  - intros H. destruct (IH H) as [y [Hy ->]]. exists y. split; [now right | reflexivity].
Qed.

Lemma nl_sep : [nl] <> [].
Proof. discriminate. Qed.

Lemma nn_sep : [nl; nl] <> [].
Proof. discriminate. Qed.

Lemma nl_only (c : char) : In c [nl] -> c = nl.
Proof. intros [<- | []]. reflexivity. Qed.

Lemma nn_only (c : char) : In c [nl; nl] -> c = nl.
Proof. intros [<- | [<- | []]]; reflexivity. Qed.

(** The extraction brings no indicator in. *)
Lemma extract_final_review_only_noise (s : str) :
  noise s = false -> noise (extract_final_review_only s) = false.
Proof.
  intros H. rewrite extract_final_review_only_eq.
  apply noise_factor with (join [nl] (from_start (split [nl] s)));
    [apply occurs_strip|].
  apply noise_join; [exact nl_sep | exact nl_only|].
  apply Forall_forall. intros x Hx.
  apply from_start_in in Hx. destruct Hx as [y [Hy ->]].
  apply noise_factor with s; [|assumption].
  apply occurs_trans with y; [apply occurs_strip|].
  now apply split_piece_occurs with [nl]; [exact nl_sep|].
Qed.

Lemma cleaned_noise (content : str) :
  noise (join [nl; nl] (clean_sections_of content)) = false.
Proof.
  apply noise_join; [exact nn_sep | exact nn_only|].
  eapply Forall_impl; [|apply clean_sections_good].
  intros sec [_ [_ [H _]]]. exact H.
Qed.

(** No indicator occurs in the report. *)
Lemma clean_content_noise (content : str) : noise (clean_content content) = false.
Proof.
  unfold clean_content. destruct (negb (nonempty content)); [reflexivity|].
  cbv zeta.
  destruct (nonempty (extract_final_review_only
                        (join [nl; nl] (clean_sections_of content)))).
  - apply extract_final_review_only_noise, cleaned_noise.
  - apply cleaned_noise.
Qed.

(** ** Texts whose lines are all stripped *)

Lemma occurs_nl_iff (s : str) : occurs [nl] s <-> In nl s.
Proof.
  split.
  - intros [a [b ->]]. apply in_or_app. right. now left.
  - intros H. apply in_split in H. destruct H as [a [b ->]]. now exists a, b.
Qed.

Lemma first_at_nl (a : str) : ~ occurs [nl] a -> first_at [nl] a.
Proof. unfold first_at. simpl. now rewrite app_nil_r. Qed.

Lemma line_clean_nil : line_clean [].
Proof. unfold line_clean. rewrite split_nl_nil. constructor; [reflexivity | constructor]. Qed.

Lemma line_clean_cut (a b : str) :
  line_clean (a ++ nl :: b) <-> line_clean a /\ line_clean b.
Proof. unfold line_clean. rewrite split_char_app. apply Forall_app. Qed.

Lemma line_clean_join (l : list str) :
  line_clean (join [nl; nl] l) <-> Forall line_clean l.
Proof.
  induction l as [|x l IH].
  - simpl. split; intros _; [constructor | apply line_clean_nil].
  - destruct l as [|y l].
    + simpl. split; [intros H; now constructor | intros H; now inversion H].
    + change (join [nl; nl] (x :: y :: l))
        with (x ++ nl :: ([] ++ nl :: join [nl; nl] (y :: l))).
      rewrite !line_clean_cut, IH. split.
      * intros [Hx [_ Hl]]. now constructor.
      * intros H. inversion H; subst. repeat split; try assumption.
        apply line_clean_nil.
Qed.

Lemma lstrip_nl (b : str) : lstrip (nl :: b) = lstrip b.
Proof. reflexivity. Qed.

Lemma line_clean_lstrip (s : str) : line_clean s -> line_clean (lstrip s).
Proof.
  unfold line_clean.
  apply (split_ind [nl]
           (fun s l => Forall stripped l -> Forall stripped (split [nl] (lstrip s)))
           nl_sep).
  - intros s0 Hno H. inversion H as [|? ? Hs _]; subst.
    now rewrite (stripped_lstrip _ Hs), split_none.
  - intros a b Ha IH H. inversion H as [|? ? Hs Hb]; subst.
    destruct a as [|c a].
    + simpl app. rewrite lstrip_nl. now apply IH.
    + rewrite lstrip_app_stripped.
      * rewrite split_app; [now constructor | exact nl_sep | assumption].
      * discriminate.
      * simpl. now apply stripped_head with a.
Qed.

Lemma line_clean_rstrip (s : str) : line_clean s -> line_clean (rstrip s).
Proof.
  unfold line_clean.
  apply (split_ind [nl]
           (fun s l => Forall stripped l -> Forall stripped (split [nl] (rstrip s)))
           nl_sep).
  - intros s0 Hno H. inversion H as [|? ? Hs _]; subst.
    now rewrite (stripped_rstrip _ Hs), split_none.
  - intros a b Ha IH H. inversion H as [|? ? Hs Hb]; subst.
    rewrite rstrip_app. simpl app. rewrite rstrip_cons, isspace_nl.
    destruct (rstrip b) as [|d r] eqn:E.
    + rewrite (stripped_rstrip _ Hs), split_none; [now constructor|].
      now apply first_at_no_sep in Ha.
    + change (a ++ nl :: d :: r) with (a ++ [nl] ++ d :: r).
      rewrite split_app; [|exact nl_sep | assumption].
      constructor; [assumption | now apply IH].
Qed.

Lemma line_clean_strip (s : str) : line_clean s -> line_clean (strip s).
Proof. intros H. now apply line_clean_rstrip, line_clean_lstrip. Qed.

(** The lines of a text put together from stripped lines. *)
Lemma line_clean_join_lines (l : list str) :
  Forall stripped l -> Forall (fun x => ~ occurs [nl] x) l ->
  line_clean (join [nl] l).
Proof.
  intros Hs Hn. destruct l as [|x l]; [apply line_clean_nil|].
  unfold line_clean. rewrite split_join; [assumption | exact nl_sep | discriminate|].
  eapply Forall_impl; [|exact Hn]. intros a. apply first_at_nl.
Qed.

Lemma from_start_lines (l : list str) :
  Forall (fun x => ~ occurs [nl] x) l ->
  Forall stripped (from_start l) /\ Forall (fun x => ~ occurs [nl] x) (from_start l).
Proof.
  intros H. split; apply Forall_forall; intros x Hx;
    apply from_start_in in Hx; destruct Hx as [y [Hy ->]].
  - apply stripped_strip.
  - rewrite Forall_forall in H. intros Hocc. apply (H y Hy).
    apply occurs_trans with (strip y); [assumption | apply occurs_strip].
Qed.

Lemma extract_final_review_only_shape (s : str) :
  line_clean (extract_final_review_only s)
  /\ stripped (extract_final_review_only s).
Proof.
  rewrite extract_final_review_only_eq. split; [|apply stripped_strip].
  apply line_clean_strip.
  destruct (from_start_lines (split [nl] s) (split_piece_no_sep [nl] s nl_sep)).
  now apply line_clean_join_lines.
Qed.

(** The first line of a text that starts with another character. *)
Lemma first_line (c : char) (t : str) :
  c <> nl -> exists l0 rest, split [nl] (c :: t) = (c :: l0) :: rest.
Proof.
  intros Hc.
  cut (forall s, s = c :: t -> exists l0 rest, split [nl] s = (c :: l0) :: rest);
    [intros H; now apply H|].
  apply (split_ind [nl]
           (fun s l => s = c :: t -> exists l0 rest, l = (c :: l0) :: rest) nl_sep).
  - intros s _ ->. now exists t, [].
  - intros a b _ _ H. destruct a as [|d a].
    + injection H as H _. congruence.
    + injection H as -> _. now exists a, (split [nl] b).
Qed.

Lemma starts_review_plain (l : str) :
  l <> [] -> noise l = false -> starts_review l = true.
Proof.
  intros Hne H. unfold noise in H. apply orb_false_iff in H. destruct H as [H1 H2].
  unfold starts_review. rewrite H1, H2. destruct l; [contradiction|].
  simpl. apply orb_true_r.
Qed.

Lemma map_strip_id (l : list str) : Forall stripped l -> map strip l = l.
Proof.
  induction 1 as [|x l Hx _ IH]; simpl; [reflexivity|]. now rewrite Hx, IH.
Qed.

(** On a stripped text with stripped lines and no indicator the extraction
    changes nothing. *)
Lemma extract_final_review_only_id (s : str) :
  line_clean s -> stripped s -> noise s = false ->
  extract_final_review_only s = s.
Proof.
  intros Hl Hs Hn. rewrite extract_final_review_only_eq.
  destruct s as [|c t]; [reflexivity|].
  assert (c <> nl) as Hc.
  { intros ->. apply stripped_head in Hs. rewrite isspace_nl in Hs. discriminate. }
  destruct (first_line c t Hc) as [l0 [rest E]].
  unfold line_clean in Hl. rewrite E in Hl |- *.
  assert (stripped (c :: l0)) as H0 by now inversion Hl.
  cbn [from_start]. rewrite H0.
  rewrite starts_review_plain.
  - change (strip (c :: l0) :: map strip rest) with (map strip ((c :: l0) :: rest)).
    rewrite map_strip_id by assumption.
    rewrite <- E, join_split by exact nl_sep. exact Hs.
  - discriminate.
  - apply noise_factor with (c :: t); [|assumption].
    apply split_piece_occurs with [nl]; [exact nl_sep|]. rewrite E. now left.
Qed.

(** ** Sections of a text *)

Lemma rstrip_length (s : str) : length (rstrip s) <= length s.
Proof. apply occurs_length, occurs_rstrip. Qed.

Lemma good_first_at (x : str) : good_section x -> first_at [nl; nl] x.
Proof.
  intros [Hne [Hs [_ Hnn]]]. unfold first_at. simpl removelast.
  intros [u [v H]]. destruct v as [|d v] using rev_ind.
  - rewrite app_nil_r in H.
    change (u ++ [nl; nl]) with (u ++ [nl] ++ [nl]) in H.
    rewrite app_assoc in H. apply app_inj_tail in H. destruct H as [H _].
    pose proof (stripped_rstrip _ Hs) as Hr. rewrite H in Hr.
    rewrite rstrip_snoc, isspace_nl in Hr.
    pose proof (rstrip_length u) as L. rewrite Hr, length_app in L.
    simpl in L. lia.
  - clear IHv. rewrite !app_assoc in H. apply app_inj_tail in H.
    destruct H as [H _]. apply Hnn. exists u, v. now rewrite <- app_assoc in H.
Qed.

Lemma filter_nonempty_id (l : list str) :
  Forall (fun x => x <> []) l -> filter nonempty l = l.
Proof.
  induction 1 as [|x l Hx _ IH]; simpl; [reflexivity|].
  destruct x; [contradiction|]. simpl. now rewrite IH.
Qed.

(** Joining good sections and cutting the text again gives them back. *)
Lemma sections_join (l : list str) :
  Forall good_section l -> sections (join [nl; nl] l) = l.
Proof.
  intros H. unfold sections. destruct l as [|x l]; [reflexivity|].
  rewrite split_join; [|exact nn_sep | discriminate|].
  - rewrite map_strip_id.
    + apply filter_nonempty_id. eapply Forall_impl; [|exact H].
      now intros a [Ha _].
    + eapply Forall_impl; [|exact H]. now intros a [_ [Ha _]].
  - eapply Forall_impl; [|exact H]. intros a. apply good_first_at.
Qed.

Lemma join_good_rstrip (l : list str) :
  l <> [] -> Forall good_section l ->
  rstrip (join [nl; nl] l) = join [nl; nl] l /\ join [nl; nl] l <> [].
Proof.
  induction l as [|x l IH]; [contradiction|]. intros _ H.
  inversion H as [|? ? Hx Hl]; subst. destruct Hx as [Hne [Hs _]].
  destruct l as [|y l].
  - simpl. split; [now apply stripped_rstrip | assumption].
  - change (join [nl; nl] (x :: y :: l))
      with (x ++ [nl; nl] ++ join [nl; nl] (y :: l)).
    destruct (IH ltac:(discriminate) Hl) as [Hr Hj].
    assert (rstrip ([nl; nl] ++ join [nl; nl] (y :: l))
            = [nl; nl] ++ join [nl; nl] (y :: l)) as E.
    { rewrite rstrip_nonempty_app; now rewrite Hr. }
    split.
    + rewrite rstrip_nonempty_app; rewrite E; [reflexivity | discriminate].
    + destruct x; [contradiction | discriminate].
Qed.

Lemma join_good_stripped (l : list str) :
  Forall good_section l -> stripped (join [nl; nl] l).
Proof.
  intros H. destruct l as [|x l]; [reflexivity|].
  apply stripped_intro.
  - inversion H as [|? ? [Hne [Hs _]] Hl]; subst. destruct l as [|y l].
    + simpl. now apply stripped_lstrip.
    + change (join [nl; nl] (x :: y :: l))
        with (x ++ [nl; nl] ++ join [nl; nl] (y :: l)).
      apply lstrip_app_stripped; [assumption|].
      rewrite <- Hs. apply strip_lstripped.
  - now apply join_good_rstrip.
Qed.

Lemma join_good_noise (l : list str) :
  Forall good_section l -> noise (join [nl; nl] l) = false.
Proof.
  intros H. apply noise_join; [exact nn_sep | exact nn_only|].
  eapply Forall_impl; [|exact H]. now intros a [_ [_ [Ha _]]].
Qed.

(** ** The report *)

Lemma clean_content_eq (content : str) :
  clean_content content =
    let cleaned_content := join [nl; nl] (clean_sections_of content) in
    if nonempty (extract_final_review_only cleaned_content)
    then extract_final_review_only cleaned_content
    else cleaned_content.
Proof. destruct content; reflexivity. Qed.

Lemma strip_head (c : char) (t : str) :
  isspace c = false -> exists r, strip (c :: t) = c :: r.
Proof.
  intros Hc. unfold strip. simpl lstrip. rewrite Hc, rstrip_cons, Hc.
  destruct (rstrip t) as [|d r]; [now exists [] | now exists (d :: r)].
Qed.

Lemma join_head (sep : str) (c : char) (r : str) (l : list str) :
  exists t, join sep ((c :: r) :: l) = c :: t.
Proof. destruct l; simpl; [now exists r | eexists; reflexivity]. Qed.

(** The extraction keeps something of a non-empty stripped text without
    indicators. *)
Lemma extract_final_review_only_nonempty (s : str) :
  s <> [] -> stripped s -> noise s = false ->
  extract_final_review_only s <> [].
Proof.
  intros Hne Hs Hn. rewrite extract_final_review_only_eq.
  destruct s as [|c t]; [contradiction|].
  pose proof (stripped_head _ _ Hs) as Hc.
  assert (c <> nl) as Hcn by (intros ->; rewrite isspace_nl in Hc; discriminate).
  destruct (first_line c t Hcn) as [l0 [rest E]]. rewrite E.
  destruct (strip_head c l0 Hc) as [r Hr].
  cbn [from_start]. rewrite Hr, starts_review_plain.
  - cbn [map]. rewrite Hr.
    destruct (join_head [nl] c r (map strip rest)) as [u ->].
    destruct (strip_head c u Hc) as [v ->]. discriminate.
  - discriminate.
  - apply noise_factor with (c :: t); [|assumption].
    apply occurs_trans with (c :: l0).
    + rewrite <- Hr. apply occurs_strip.
    + apply split_piece_occurs with [nl]; [exact nl_sep|]. rewrite E. now left.
Qed.

(** The report is a stripped text with stripped lines and no indicator. *)
Lemma clean_content_shape (content : str) :
  line_clean (clean_content content) /\ stripped (clean_content content).
Proof.
  rewrite clean_content_eq. cbv zeta.
  destruct (nonempty (extract_final_review_only
                        (join [nl; nl] (clean_sections_of content)))) eqn:E.
  - apply extract_final_review_only_shape.
  - destruct (join [nl; nl] (clean_sections_of content)) as [|c t] eqn:J.
    + split; [apply line_clean_nil | reflexivity].
    + exfalso.
      assert (extract_final_review_only (c :: t) <> []) as F.
      { rewrite <- J. apply extract_final_review_only_nonempty.
        - rewrite J. discriminate.
        - apply join_good_stripped, clean_sections_good.
        - apply cleaned_noise. }
      destruct (extract_final_review_only (c :: t)); [now apply F | discriminate].
Qed.

(** When the lines of the kept sections are stripped, the report is these
    sections joined by blank lines. *)
Lemma clean_content_plain (content : str) :
  Forall line_clean (clean_sections_of content) ->
  clean_content content = join [nl; nl] (clean_sections_of content).
Proof.
  intros H. rewrite clean_content_eq. cbv zeta.
  rewrite extract_final_review_only_id.
  - now destruct (nonempty (join [nl; nl] (clean_sections_of content))).
  - now apply line_clean_join.
  - apply join_good_stripped, clean_sections_good.
  - apply cleaned_noise.
Qed.

Lemma sections_in (s sec : str) :
  In sec (sections s) -> sec <> [] /\ exists p, In p (split [nl; nl] s) /\ sec = strip p.
Proof.
  unfold sections. intros H. apply filter_In in H. destruct H as [H Hne].
  apply in_map_iff in H. destruct H as [p [<- Hp]]. split.
  - intros E. rewrite E in Hne. discriminate.
  - now exists p.
Qed.

Lemma sections_occur (s sec : str) : In sec (sections s) -> occurs sec s.
Proof.
  intros H. apply sections_in in H. destruct H as [_ [p [Hp ->]]].
  apply occurs_trans with p; [apply occurs_strip|].
  apply split_piece_occurs with [nl; nl]; [exact nn_sep | assumption].
Qed.

(** On a text without indicators the loop keeps the first occurrence of
    every section. *)
Lemma clean_sections_of_clean (s : str) :
  noise s = false -> clean_sections_of s = dedup_from [] (sections s).
Proof.
  intros Hn. rewrite clean_sections_of_eq. unfold sections. f_equal.
  apply filter_ext_in. intros x Hx. unfold keep.
  apply in_map_iff in Hx. destruct Hx as [p [<- Hp]].
  rewrite (noise_factor (strip p) s); [apply andb_true_r | | assumption].
  apply occurs_trans with p; [apply occurs_strip|].
  apply split_piece_occurs with [nl; nl]; [exact nn_sep | assumption].
Qed.

Lemma clean_sections_line_clean (s : str) :
  line_clean s -> Forall line_clean (clean_sections_of s).
Proof.
  intros Hl. rewrite clean_sections_of_eq. apply Forall_forall. intros sec Hin.
  apply dedup_from_in in Hin. destruct Hin as [Hin _].
  apply filter_In in Hin. destruct Hin as [Hin _].
  apply in_map_iff in Hin. destruct Hin as [p [<- Hp]].
  apply line_clean_strip.
  rewrite <- (join_split [nl; nl] s nn_sep) in Hl.
  apply line_clean_join in Hl. rewrite Forall_forall in Hl. now apply Hl.
Qed.

(** A second pass over a report keeps the first occurrence of each of its
    sections and joins them. *)
Lemma clean_content_again (content : str) :
  let report := clean_content content in
  clean_sections_of report = dedup_from [] (sections report)
  /\ clean_content report = join [nl; nl] (dedup_from [] (sections report))
  /\ sections (clean_content report) = dedup_from [] (sections report).
Proof.
  intros report. destruct (clean_content_shape content) as [Hl Hs].
  pose proof (clean_content_noise content) as Hn. fold report in Hl, Hs, Hn.
  pose proof (clean_sections_of_clean report Hn) as E.
  pose proof (clean_content_plain report (clean_sections_line_clean report Hl)) as P.
  repeat split.
  - exact E.
  - now rewrite P, E.
  - rewrite P, <- E. apply sections_join, clean_sections_good.
Qed.

Lemma dedup_in_iff (l : list str) (x : str) : In x (dedup_from [] l) <-> In x l.
Proof.
  split.
  - intros H. now apply dedup_from_in in H.
  - intros H. destruct (dedup_from_complete [] l x H) as [[] | Hd]. exact Hd.
Qed.

Lemma extract_final_review_only_all (s : str) :
  stripped s -> noise s = false ->
  extract_final_review_only s = strip (join [nl] (map strip (split [nl] s))).
Proof.
  intros Hs Hn. rewrite extract_final_review_only_eq.
  destruct s as [|c t]; [reflexivity|].
  pose proof (stripped_head _ _ Hs) as Hc.
  assert (c <> nl) as Hcn by (intros ->; rewrite isspace_nl in Hc; discriminate).
  destruct (first_line c t Hcn) as [l0 [rest E]]. rewrite E.
  destruct (strip_head c l0 Hc) as [r Hr].
  cbn [from_start]. rewrite Hr, starts_review_plain; [reflexivity | discriminate|].
  apply noise_factor with (c :: t); [|assumption].
  apply occurs_trans with (c :: l0).
  - rewrite <- Hr. apply occurs_strip.
  - apply split_piece_occurs with [nl]; [exact nl_sep|]. rewrite E. now left.
Qed.

(** The report is the kept sections joined by blank lines, with every line
    stripped and the whole stripped. *)
Lemma clean_content_lines (content : str) :
  clean_content content
  = strip (join [nl]
             (map strip (split [nl] (join [nl; nl] (clean_sections_of content))))).
Proof.
  rewrite clean_content_eq. cbv zeta.
  pose proof (join_good_stripped _ (clean_sections_good content)) as Hs.
  pose proof (cleaned_noise content) as Hn.
  rewrite <- (extract_final_review_only_all _ Hs Hn).
  destruct (join [nl; nl] (clean_sections_of content)) as [|c t] eqn:J.
  - reflexivity.
  - pose proof (extract_final_review_only_nonempty (c :: t)
                  ltac:(discriminate) Hs Hn) as F.
    destruct (extract_final_review_only (c :: t)); [contradiction | reflexivity].
Qed.

(* ================================================================= *)
(** * The claims on classification and aggregation *)

(** C6.  Empty and non-string inputs are not noise for either predicate (the
    predicates are total functions into [bool]: nothing is raised); a string
    that holds a marker of the tool-noise list makes
    [is_function_call_message] true, and a string that holds a marker of the
    record list makes [is_raw_json_data] true. *)
Theorem classifier_markers (v : value) (m1 s1 m2 s2 : str) :
  (truthy v = false \/ is_str v = false ->
   is_function_call_message v = false /\ is_raw_json_data v = false)
  /\ (In m1 function_indicators -> occurs m1 s1 ->
      is_function_call_message (PyStr s1) = true)
  /\ (In m2 json_indicators -> occurs m2 s2 ->
      is_raw_json_data (PyStr s2) = true).
Proof.
  repeat split.
  - unfold is_function_call_message. destruct H as [-> | ->]; simpl;
      [reflexivity | now rewrite orb_true_r].
  - unfold is_raw_json_data. destruct H as [-> | ->]; simpl;
      [reflexivity | now rewrite orb_true_r].
  - intros Hin Hocc. rewrite is_function_call_message_str.
    apply any_in_spec. now exists m1.
  - intros Hin Hocc. rewrite is_raw_json_data_str.
    apply any_in_spec. now exists m2.
Qed.

Lemma classifier_markers_witness :
  (is_function_call_message (PyOther true (lit "[1, 2]")) = false
   /\ is_raw_json_data (PyOther true (lit "[1, 2]")) = false)
  /\ is_function_call_message (PyStr (lit "x call_id=7 y")) = true
  /\ is_raw_json_data (PyStr (lit "[{'title': 'T'}]")) = true.
Proof.
  destruct (classifier_markers
              (PyOther true (lit "[1, 2]"))
              (lit "call_id=") (lit "x call_id=7 y")
              (lit "{'title':") (lit "[{'title': 'T'}]")) as [H1 [H2 H3]].
  split; [apply H1; right; reflexivity|]. split.
  - apply H2; [vm_compute; tauto|]. now exists (lit "x "), (lit "7 y").
  - apply H3; [vm_compute; tauto|]. now exists (lit "["), (lit " 'T'}]").
Defined.

(** C9.  A string that holds one of the bare words [pdf_url], [published],
    [authors] anywhere is tool noise, so a section that holds one is not
    among the sections the filter keeps, is not a section of the report, and
    the word does not occur in the report at all. *)
Theorem bare_words_are_noise (word s content : str) :
  In word [lit "pdf_url"; lit "published"; lit "authors"] ->
  occurs word s ->
  is_function_call_message (PyStr s) = true
  /\ ~ In s (clean_sections_of content)
  /\ ~ In s (sections (clean_content content))
  /\ ~ occurs word (clean_content content).
Proof.
  intros Hw Hocc.
  assert (In word function_indicators) as Hf.
  { destruct Hw as [<- | [<- | [<- | []]]]; vm_compute; tauto. }
  assert (is_function_call_message (PyStr s) = true) as Hcall.
  { rewrite is_function_call_message_str. apply any_in_spec. now exists word. }
  assert (noise s = true) as Hnoise by (unfold noise; now rewrite Hcall).
  repeat split.
  - exact Hcall.
  - intros Hin. pose proof (clean_sections_good content) as G.
    rewrite Forall_forall in G. destruct (G s Hin) as [_ [_ [Hn _]]]. congruence.
  - intros Hin. apply sections_occur in Hin.
    pose proof (noise_factor _ _ Hin (clean_content_noise content)). congruence.
  - intros Hin. pose proof (clean_content_noise content) as Hn.
    rewrite noise_false in Hn. apply (Hn word); [|assumption].
    apply in_or_app. now left.
Qed.

Lemma bare_words_are_noise_witness :
  is_function_call_message (PyStr (lit "We thank the authors.")) = true
  /\ ~ In (lit "We thank the authors.")
          (clean_sections_of (lit "We thank the authors." ++ [nl; nl] ++ lit "B"))
  /\ ~ In (lit "We thank the authors.")
          (sections (clean_content
                       (lit "We thank the authors." ++ [nl; nl] ++ lit "B")))
  /\ ~ occurs (lit "authors")
          (clean_content (lit "We thank the authors." ++ [nl; nl] ++ lit "B")).
Proof.
  apply (bare_words_are_noise (lit "authors")).
  - right. right. left. reflexivity.
  - now exists (lit "We thank the "), (lit ".").
Defined.

(** C3, as stated, fails: a block with a line of blanks between two
    paragraphs is one section for the filter, and stripping its lines turns
    it into two sections of the output, one of which repeats the first. *)
Lemma stated_guarantee_fails :
  ~ stated_guarantee [lit "A"; lit "B" ++ [nl; sp; nl] ++ lit "A"].
Proof.
  intros [_ [H _]]. vm_compute in H.
  apply NoDup_cons_iff in H. destruct H as [H _]. apply H. right. left. reflexivity.
Qed.

(** C3, amended.  No section of the output is noise; the sections the filter
    keeps are not noise, are pairwise distinct and come in the order of the
    input; the output is these sections joined by blank lines with every
    line stripped; when no line of a kept section has blanks at its ends,
    the sections of the output are exactly the kept ones; and the blocks
    A, A, B give A, a blank line, B. *)
Theorem aggregate_guarantee (blocks : list str) :
  let content := join [nl; nl] blocks in
  let kept := clean_sections_of content in
  Forall (fun sec => noise sec = false) (sections (aggregate blocks))
  /\ Forall (fun sec => noise sec = false) kept
  /\ NoDup kept
  /\ subseq kept (map strip (split [nl; nl] content))
  /\ aggregate blocks
     = strip (join [nl] (map strip (split [nl] (join [nl; nl] kept))))
  /\ (Forall line_clean kept ->
      aggregate blocks = join [nl; nl] kept /\ sections (aggregate blocks) = kept)
  /\ aggregate [lit "A"; lit "A"; lit "B"] = lit "A" ++ [nl; nl] ++ lit "B".
Proof.
  intros content kept. unfold aggregate. fold content. repeat split.
  - apply Forall_forall. intros sec Hin. apply sections_occur in Hin.
    exact (noise_factor _ _ Hin (clean_content_noise content)).
  - eapply Forall_impl; [|apply clean_sections_good]. now intros a [_ [_ [Ha _]]].
  - unfold kept. rewrite clean_sections_of_eq. apply dedup_from_NoDup.
  - unfold kept. rewrite clean_sections_of_eq. apply subseq_dedup_filter.
  - apply clean_content_lines.
  - now apply clean_content_plain.
  - rewrite clean_content_plain by assumption.
    apply sections_join, clean_sections_good.
Qed.

Lemma aggregate_guarantee_witness :
  aggregate [lit "A"; lit "A"; lit "B"]
  = join [nl; nl] (clean_sections_of (join [nl; nl] [lit "A"; lit "A"; lit "B"]))
  /\ sections (aggregate [lit "A"; lit "A"; lit "B"])
     = clean_sections_of (join [nl; nl] [lit "A"; lit "A"; lit "B"]).
Proof.
  apply (aggregate_guarantee [lit "A"; lit "A"; lit "B"]).
  vm_compute. repeat constructor.
Defined.

(** C8.  A second pass of [clean_content] over its own output yields the
    same set of sections as the first: the sections of the second output
    are those of the first, and the filter of the second pass keeps each
    section of its input (only repeated copies go). *)
Theorem aggregate_section_set_stable (content sec : str) :
  let report := clean_content content in
  (In sec (sections (clean_content report)) <-> In sec (sections report))
  /\ (In sec (clean_sections_of report) <-> In sec (sections report)).
Proof.
  intros report.
  destruct (clean_content_again content) as [E1 [_ E3]]. fold report in E1, E3.
  rewrite E1, E3. split; apply dedup_in_iff.
Qed.

(** As texts the two passes can differ: the first report may hold a section
    twice (see the failing statement of C3), and the second pass drops the
    copy. *)
Example second_pass_drops_a_copy :
  clean_content (lit "A" ++ [nl; nl] ++ lit "B" ++ [nl; sp; nl] ++ lit "A")
  = lit "A" ++ [nl; nl] ++ lit "B" ++ [nl; nl] ++ lit "A"
  /\ clean_content
       (clean_content (lit "A" ++ [nl; nl] ++ lit "B" ++ [nl; sp; nl] ++ lit "A"))
     = lit "A" ++ [nl; nl] ++ lit "B".
Proof. split; vm_compute; reflexivity. Qed.

(** C4, as stated, fails: the indented line after the header comes out
    without its indentation. *)
Lemma kept_verbatim_fails :
  ~ kept_verbatim (lit "Key Papers" ++ [nl] ++ lit "  - a paper").
Proof.
  intros H.
  specialize (H [] [lit "  - a paper"] (lit "Key Papers") (lit "  - a paper")
                eq_refl (Forall_nil _) eq_refl (or_introl eq_refl)).
  vm_compute in H. destruct H as [H | [H | []]]; discriminate.
Qed.

(** C4, amended.  Once the line that opens the review is found, the output
    is that line and every later line of the input, each stripped of the
    blanks at its ends, in order, joined by line feeds, and the whole
    stripped (which removes blank lines at the end); the joined text has
    exactly these stripped lines. *)
Theorem narrative_lines_stripped (content : str) (pre post : list str) (l0 : str) :
  split [nl] content = pre ++ l0 :: post ->
  Forall (fun x => starts_review (strip x) = false) pre ->
  starts_review (strip l0) = true ->
  extract_final_review_only content
  = strip (join [nl] (map strip (l0 :: post)))
  /\ split [nl] (join [nl] (map strip (l0 :: post))) = map strip (l0 :: post).
Proof.
  intros E Hpre H0. split.
  - rewrite extract_final_review_only_eq, E. now rewrite from_start_cut.
  - apply split_join; [exact nl_sep | discriminate|].
    pose proof (split_piece_no_sep [nl] content nl_sep) as F. rewrite E in F.
    apply Forall_app in F. destruct F as [_ F].
    apply Forall_forall. intros x Hx. apply in_map_iff in Hx.
    destruct Hx as [y [<- Hy]]. apply first_at_nl. intros Hocc.
    rewrite Forall_forall in F. apply (F y Hy).
    apply occurs_trans with (strip y); [assumption | apply occurs_strip].
Qed.

Lemma narrative_lines_stripped_witness :
  extract_final_review_only
    (lit "call_id=1" ++ [nl] ++ lit "Key Papers" ++ [nl] ++ lit "  - a paper  "
     ++ [nl; nl])
  = strip (join [nl] (map strip [lit "Key Papers"; lit "  - a paper  "; []; []]))
  /\ split [nl] (join [nl] (map strip [lit "Key Papers"; lit "  - a paper  "; []; []]))
     = map strip [lit "Key Papers"; lit "  - a paper  "; []; []].
Proof.
  apply (narrative_lines_stripped
           (lit "call_id=1" ++ [nl] ++ lit "Key Papers" ++ [nl]
            ++ lit "  - a paper  " ++ [nl; nl])
           [lit "call_id=1"]).
  - reflexivity.
  - repeat constructor.
  - reflexivity.
Defined.

(* ================================================================= *)
(** * Message normalisation *)

(** ** The code against the resolution order *)

Lemma extract_message_content_unfold (depth : nat) (msg : Msg) :
  extract_message_content (S depth) msg =
  rtry
    (rbind (has_true (a_content msg)) (fun c1 =>
     if c1 then str_attr (a_content msg) else
     rbind (has_true (a_summary msg)) (fun c2 =>
     if c2 then str_attr (a_summary msg) else
     rbind (has_true_container (a_messages msg)) (fun c3 =>
     if c3 then
       match last_of (a_messages msg) with
       | Some last_msg => extract_message_content depth last_msg
       | None => Err AttributeError
       end
     else
     rbind (has_true_container (a_inner_messages msg)) (fun c4 =>
     if c4 then
       match last_of (a_inner_messages msg) with
       | Some last_msg => extract_message_content depth last_msg
       | None => Err AttributeError
       end
     else
     rbind (has_true (a_text msg)) (fun c5 =>
     if c5 then str_attr (a_text msg) else
     rbind (has_true (a_message msg)) (fun c6 =>
     if c6 then str_attr (a_message msg) else
     Ok [])))))))
    (fun _ => Ok []).
Proof.
  destruct msg as [c s ms ims t m]. cbn [extract_message_content a_content
    a_summary a_messages a_inner_messages a_text a_message].
  destruct ms as [| e | [| init last_msg | last_msg]];
    destruct ims as [| e' | [| init' last_msg' | last_msg']]; reflexivity.
Qed.

Lemma call_depth_unfold (msg : Msg) :
  call_depth msg =
  S (match probe_value (a_content msg), probe_value (a_summary msg) with
     | Unmatched, Unmatched =>
         match probe_container (a_messages msg) with
         | Matched =>
             match last_of (a_messages msg) with
             | Some last_msg => call_depth last_msg
             | None => 0
             end
         | Unmatched =>
             match probe_container (a_inner_messages msg) with
             | Matched =>
                 match last_of (a_inner_messages msg) with
                 | Some last_msg => call_depth last_msg
                 | None => 0
                 end
             | _ => 0
             end
         | Failing => 0
         end
     | _, _ => 0
     end).
Proof.
  destruct msg as [c s ms ims t m]. cbn [call_depth a_content
    a_summary a_messages a_inner_messages a_text a_message].
  destruct ms as [| e | [| init last_msg | last_msg]];
    destruct ims as [| e' | [| init' last_msg' | last_msg']]; reflexivity.
Qed.

Lemma call_depth_pos (msg : Msg) : 1 <= call_depth msg.
Proof. rewrite call_depth_unfold. lia. Qed.

(** What the test [hasattr(msg, 'x') and msg.x] and the conversion
    [str(msg.x)] give, by the result of probing. *)
Lemma has_true_probe (a : attr value) :
  match probe_value a with
  | Matched => has_true a = Ok true
               /\ exists v, a = Has v /\ str_attr a = Ok (to_str v)
  | Unmatched => has_true a = Ok false
  | Failing => exists e, has_true a = Err e
  end.
Proof.
  destruct a as [| e | v]; simpl.
  - reflexivity.
  - now exists e.
  - unfold has_true. simpl. destruct (truthy v); [|reflexivity].
    split; [reflexivity|]. now exists v.
Qed.

Lemma has_true_container_probe (a : attr (container Msg)) :
  match probe_container a with
  | Matched => has_true_container a = Ok true /\ exists m, last_of a = Some m
  | Unmatched => has_true_container a = Ok false
  | Failing => exists e, has_true_container a = Err e
  end.
Proof.
  destruct a as [| e | [| init last_msg | last_msg]]; simpl.
  - reflexivity.
  - now exists e.
  - reflexivity.
  - split; [reflexivity|]. now exists last_msg.
  - split; [reflexivity|]. now exists last_msg.
Qed.

Lemma text_or_nested (msg : Msg) (f : field) (s : str) (m : Msg) :
  field_text msg f = Some s -> field_last msg f = Some m -> False.
Proof. destruct f; simpl; discriminate. Qed.

Lemma resolves_functional (msg : Msg) (s s' : str) :
  resolves msg s -> resolves msg s' -> s = s'.
Proof.
  intros H. revert s'.
  induction H as [msg E | msg f E | msg f s E T | msg f m s E L _ IH];
    intros s' H'; inversion H' as [? E' | ? f' E' | ? f' ? E' T' | ? f' m' ? E' L' R'];
    subst; try reflexivity; try congruence.
  - assert (f' = f) as -> by congruence. exfalso. eapply text_or_nested; eassumption.
  - assert (f' = f) as -> by congruence. exfalso. eapply text_or_nested; eassumption.
  - assert (f' = f) as -> by congruence. apply IH. congruence.
Qed.

Ltac decide_first :=
  unfold resolution_order; cbn [first_decisive probe];
  repeat match goal with
         | H : probe_value _ = _ |- _ => rewrite H
         | H : probe_container _ = _ |- _ => rewrite H
         end;
  reflexivity.

(** The depth of a message by what probing its fields gave. *)
Ltac depth_in Hd :=
  rewrite call_depth_unfold in Hd;
  repeat match goal with
         | H : probe_value _ = _ |- _ => rewrite H in Hd
         | H : probe_container _ = _ |- _ => rewrite H in Hd
         | H : last_of _ = _ |- _ => rewrite H in Hd
         end;
  cbv beta iota in Hd.

Ltac text_field f :=
  match goal with
  | P : _ /\ (exists v, _ = Has v /\ _) |- _ =>
      let v := fresh "v" in
      let Hv := fresh "Hv" in
      let Hs := fresh "Hs" in
      let Hd := fresh "Hd" in
      destruct P as [-> [v [Hv Hs]]]; cbn [rbind]; rewrite Hs; cbn [rtry];
      exists (to_str v); split; [reflexivity | split; intros Hd];
      [ apply resolves_text with f; [decide_first | simpl; now rewrite Hv]
      | exfalso; depth_in Hd; lia ]
  end.

Ltac failing_field f :=
  match goal with
  | P : exists e, _ = Err e |- _ =>
      let e := fresh "e" in
      destruct P as [e ->]; cbn [rbind rtry]; exists []; split;
      [ reflexivity
      | split; intros _; [apply resolves_failure with f; decide_first | reflexivity] ]
  end.

Lemma nested_call (depth : nat) (msg m : Msg) (f : field) :
  call_outcome depth m ->
  first_decisive msg resolution_order = Some (f, Matched) ->
  field_last msg f = Some m ->
  call_depth msg = S (call_depth m) ->
  exists s,
    rtry (extract_message_content depth m) (fun _ => Ok []) = Ok s
    /\ (call_depth msg <= S depth -> resolves msg s)
    /\ (S depth < call_depth msg -> s = []).
Proof.
  intros Hm Hf Hl Hd. pose proof (call_depth_pos m) as Hp.
  destruct depth as [|depth]; cbn [call_outcome] in Hm.
  - rewrite Hm. cbn [rtry]. exists []. split; [reflexivity|].
    split; [intros H; lia | reflexivity].
  - destruct Hm as [s [-> [Hr Hz]]]. cbn [rtry]. exists s.
    split; [reflexivity|]. split; intros H.
    + apply resolves_nested with f m; [assumption | assumption | apply Hr; lia].
    + apply Hz. lia.
Qed.

Lemma extract_message_content_outcome (depth : nat) :
  forall msg, call_outcome depth msg.
Proof.
  induction depth as [|depth IH]; intros msg; [reflexivity|].
  cbn [call_outcome]. rewrite extract_message_content_unfold.
  pose proof (has_true_probe (a_content msg)) as P1.
  destruct (probe_value (a_content msg)) eqn:E1;
    [text_field FContent | | failing_field FContent].
  rewrite P1. cbn [rbind]. clear P1.
  pose proof (has_true_probe (a_summary msg)) as P2.
  destruct (probe_value (a_summary msg)) eqn:E2;
    [text_field FSummary | | failing_field FSummary].
  rewrite P2. cbn [rbind]. clear P2.
  pose proof (has_true_container_probe (a_messages msg)) as P3.
  destruct (probe_container (a_messages msg)) eqn:E3;
    [ | | failing_field FMessages].
  { destruct P3 as [-> [m Hm]]. cbn [rbind]. rewrite Hm.
    apply nested_call with FMessages; [apply IH | decide_first | exact Hm |].
    rewrite (call_depth_unfold msg), E1, E2, E3, Hm. reflexivity. }
  rewrite P3. cbn [rbind]. clear P3.
  pose proof (has_true_container_probe (a_inner_messages msg)) as P4.
  destruct (probe_container (a_inner_messages msg)) eqn:E4;
    [ | | failing_field FInnerMessages].
  { destruct P4 as [-> [m Hm]]. cbn [rbind]. rewrite Hm.
    apply nested_call with FInnerMessages; [apply IH | decide_first | exact Hm |].
    rewrite (call_depth_unfold msg), E1, E2, E3, E4, Hm. reflexivity. }
  rewrite P4. cbn [rbind]. clear P4.
  pose proof (has_true_probe (a_text msg)) as P5.
  destruct (probe_value (a_text msg)) eqn:E5;
    [text_field FText | | failing_field FText].
  rewrite P5. cbn [rbind]. clear P5.
  pose proof (has_true_probe (a_message msg)) as P6.
  destruct (probe_value (a_message msg)) eqn:E6;
    [text_field FMessage | | failing_field FMessage].
  rewrite P6. cbn [rbind rtry]. clear P6.
  exists []. split; [reflexivity|].
  split; intros _; [apply resolves_none; decide_first | reflexivity].
Qed.

(** C5.  [extract_message_content] returns, and never raises, whatever the
    message and however many further nested calls the interpreter's
    recursion limit admits.  When the calls the message needs fit within
    the limit, what it returns is the string the resolution order of the
    specification fixes: the string of the first field, in the order
    content, summary, messages, inner_messages, text, message, that is
    present and non-empty, a container field standing for the normalisation
    of its last element; the empty string when no field matches or when the
    access to the first field that is not passed over fails.  When they do
    not fit, the error of the call that exceeds the limit is caught as any
    other and the empty string is returned. *)
Theorem extract_message_content_resolves (room : nat) (msg : Msg) :
  exists s,
    extract_message_content (S room) msg = Ok s
    /\ (call_depth msg <= S room ->
        resolves msg s /\ (forall s', resolves msg s' -> s' = s))
    /\ (S room < call_depth msg -> s = []).
Proof.
  destruct (extract_message_content_outcome (S room) msg) as [s [H1 [H2 H3]]].
  exists s. repeat split; try assumption.
  - now apply H2.
  - intros s' H'. apply resolves_functional with msg; [assumption | now apply H2].
Qed.

(** A message nested three deep: with room for two nested calls its text is
    reached, with room for one the call on the innermost message exceeds
    the limit and the result is empty. *)
Lemma extract_message_content_resolves_witness :
  extract_message_content 3 nested_message = Ok (lit "Inner text")
  /\ resolves nested_message (lit "Inner text")
  /\ extract_message_content 2 nested_message = Ok [].
Proof.
  destruct (extract_message_content_resolves 2 nested_message) as [s [E [H _]]].
  destruct (extract_message_content_resolves 1 nested_message) as [s' [E' [_ H']]].
  assert (s = lit "Inner text") as ->
      by (pose proof E as E0; vm_compute in E0; injection E0 as <-; reflexivity).
  split; [exact E|]. split.
  - apply H. vm_compute. repeat constructor.
  - rewrite E'. f_equal. apply H'. vm_compute. repeat constructor.
Defined.

(* ================================================================= *)
(** * The run *)

Lemma update_progress_none (w : World) (st : ReviewStatus) (msg : str) (pct : Z)
  (log : list ReviewProgress) :
  update_progress w None st msg pct log = (log, Ok tt).
Proof. reflexivity. Qed.

Lemma update_progress_ok (w : World) (cb : Subscriber) (st : ReviewStatus)
  (msg : str) (pct : Z) (log : list ReviewProgress) :
  cb log (mkReviewProgress st msg pct (datetime_now w (length log))) = None ->
  update_progress w (Some cb) st msg pct log
  = (log ++ [mkReviewProgress st msg pct (datetime_now w (length log))], Ok tt).
Proof. intros H. unfold update_progress. now rewrite H. Qed.

Lemma update_progress_log (w : World) (cb : Subscriber) (st : ReviewStatus)
  (msg : str) (pct : Z) (log : list ReviewProgress) :
  fst (update_progress w (Some cb) st msg pct log)
  = log ++ [mkReviewProgress st msg pct (datetime_now w (length log))].
Proof. reflexivity. Qed.

Lemma extract_message_content_ok (w : World) (msg : Msg) :
  extract_message_content (S (recursion_room w)) msg = Ok (normalized w msg).
Proof.
  unfold normalized.
  destruct (extract_message_content_outcome (S (recursion_room w)) msg)
    as [s [-> _]].
  reflexivity.
Qed.

Lemma loop_shown_step (n : Z) (k : nat) :
  (0 <= n)%Z ->
  loop_shown n (S k)
  = (if (n + 1 =? 1)%Z then (SEARCHING, 60%Z) else (SUMMARIZING, 80%Z))
      :: loop_shown (n + 1) k.
Proof.
  intros Hn. unfold loop_shown.
  destruct (Z.eqb_spec n 0) as [->|Hne].
  - simpl. destruct k; reflexivity.
  - destruct (Z.eqb_spec (n + 1) 1) as [E|_]; [lia|].
    destruct (Z.eqb_spec (n + 1) 0) as [E|_]; [lia|].
    destruct k; reflexivity.
Qed.

Lemma blocks_of_cons (w : World) (msg : Msg) (msgs : list Msg) :
  blocks_of w (msg :: msgs)
  = (if nonempty (normalized w msg) then [normalized w msg] else [])
    ++ blocks_of w msgs.
Proof. unfold blocks_of. simpl. now destruct (nonempty (normalized w msg)). Qed.

(** One turn of the loop. *)
Lemma consume_yield (w : World) (pc : option Subscriber) (msg : Msg)
  (rest : Stream) (all_messages : list str) (n : Z) (log : list ReviewProgress) :
  consume w pc (Yield msg rest) all_messages n log =
    match
      (if (n + 1 =? 1)%Z then
         update_progress w pc SEARCHING
           (lit "Papers found, starting analysis...") 60
       else if (n + 1 >=? 2)%Z then
         update_progress w pc SUMMARIZING (lit "Generating final review...") 80
       else ret tt) log
    with
    | (log', Ok _) =>
        consume w pc rest
          (if nonempty (normalized w msg)
           then all_messages ++ [normalized w msg] else all_messages)
          (n + 1) log'
    | (log', Err e) => (log', Err e)
    end.
Proof.
  cbn [consume]. unfold bind, lift. rewrite extract_message_content_ok.
  reflexivity.
Qed.

(** The loop with a subscriber that returns normally from its events. *)
Lemma consume_quiet (w : World) (cb : Subscriber) :
  quiet_before_error cb ->
  forall (stream : Stream) (all_messages : list str) (n : Z)
         (log : list ReviewProgress),
    (0 <= n)%Z ->
    map shown (fst (consume w (Some cb) stream all_messages n log))
    = map shown log ++ loop_shown n (stream_length stream)
    /\ snd (consume w (Some cb) stream all_messages n log)
       = match stream_failure stream with
         | Some e => Err e
         | None => Ok (all_messages ++ blocks_of w (stream_yielded stream))
         end.
Proof.
  intros Hq. induction stream as [| e | msg rest IH]; intros all_messages n log Hn.
  - simpl. now rewrite !app_nil_r.
  - simpl. now rewrite app_nil_r.
  - rewrite consume_yield.
    set (all' := if nonempty (normalized w msg)
                 then all_messages ++ [normalized w msg] else all_messages).
    assert (all' ++ blocks_of w (stream_yielded rest)
            = all_messages ++ blocks_of w (stream_yielded (Yield msg rest))) as Hall.
    { cbn [stream_yielded]. rewrite blocks_of_cons. unfold all'.
      destruct (nonempty (normalized w msg)); now rewrite <- ?app_assoc. }
    change (stream_length (Yield msg rest)) with (S (stream_length rest)).
    rewrite loop_shown_step by assumption. cbn [stream_failure].
    destruct (Z.eqb_spec (n + 1) 1) as [E|E].
    + rewrite update_progress_ok by (apply Hq; simpl; discriminate).
      destruct (IH all' (n + 1)%Z
                  (log ++ [mkReviewProgress SEARCHING
                             (lit "Papers found, starting analysis...") 60
                             (datetime_now w (length log))])
                  ltac:(lia)) as [H1 H2].
      rewrite H1, H2, map_app, <- app_assoc, Hall. split; reflexivity.
    + destruct (Z.geb_spec (n + 1) 2) as [G|G]; [|lia].
      rewrite update_progress_ok by (apply Hq; simpl; discriminate).
      destruct (IH all' (n + 1)%Z
                  (log ++ [mkReviewProgress SUMMARIZING
                             (lit "Generating final review...") 80
                             (datetime_now w (length log))])
                  ltac:(lia)) as [H1 H2].
      rewrite H1, H2, map_app, <- app_assoc, Hall. split; reflexivity.
Qed.

(** The loop without a subscriber. *)
Lemma consume_none (w : World) (stream : Stream) :
  forall (all_messages : list str) (n : Z) (log : list ReviewProgress),
    consume w None stream all_messages n log
    = (log,
       match stream_failure stream with
       | Some e => Err e
       | None => Ok (all_messages ++ blocks_of w (stream_yielded stream))
       end).
Proof.
  induction stream as [| e | msg rest IH]; intros all_messages n log.
  - simpl. now rewrite app_nil_r.
  - reflexivity.
  - rewrite consume_yield.
    replace ((if (n + 1 =? 1)%Z
              then update_progress w None SEARCHING
                     (lit "Papers found, starting analysis...") 60
              else if (n + 1 >=? 2)%Z
                   then update_progress w None SUMMARIZING
                          (lit "Generating final review...") 80
                   else ret tt) log)
      with (log, @Ok unit tt)
      by (destruct (n + 1 =? 1)%Z; [|destruct (n + 1 >=? 2)%Z]; reflexivity).
    rewrite IH. cbn [stream_failure stream_yielded]. rewrite blocks_of_cons.
    destruct (stream_failure rest); [reflexivity|].
    destruct (nonempty (normalized w msg)); now rewrite <- ?app_assoc.
Qed.

(** When the loop returns, the stream has stopped normally and the buffer
    holds the non-empty normalised messages, in order. *)
Lemma consume_returns (w : World) (pc : option Subscriber) (stream : Stream) :
  forall (all_messages all' : list str) (n : Z) (log : list ReviewProgress),
    snd (consume w pc stream all_messages n log) = Ok all' ->
    stream_failure stream = None
    /\ all' = all_messages ++ blocks_of w (stream_yielded stream).
Proof.
  induction stream as [| e | msg rest IH]; intros all_messages all' n log H.
  - simpl in H. injection H as <-. split; [reflexivity|]. simpl.
    now rewrite app_nil_r.
  - discriminate.
  - rewrite consume_yield in H.
    destruct ((if (n + 1 =? 1)%Z
               then update_progress w pc SEARCHING
                      (lit "Papers found, starting analysis...") 60
               else if (n + 1 >=? 2)%Z
                    then update_progress w pc SUMMARIZING
                           (lit "Generating final review...") 80
                    else ret tt) log) as [log' [u|e]]; [|discriminate].
    apply IH in H. destruct H as [H1 ->]. split; [exact H1|].
    cbn [stream_yielded]. rewrite blocks_of_cons.
    destruct (nonempty (normalized w msg)); now rewrite <- ?app_assoc.
Qed.

(** [run_review] by its parts: the handler takes the second reading when
    the [try] block fails before its own, and the third when the block fails
    after it, at the completion event. *)
Lemma run_review_parts (w : World) (self : LiteratureReviewService)
  (pc : option Subscriber) (config : ReviewConfig) (log : list ReviewProgress) :
  run_review w self pc config log
  = match collect w self pc config log with
    | (l, Ok all_messages) =>
        try_except (complete w pc config all_messages)
          (report_failure w pc config 2) l
    | (l, Err e) => report_failure w pc config 1 e l
    end.
Proof.
  unfold run_review, run_review_timed, collect, complete, report_failure,
    failed_result_at, error_text, time_now, untimed, try_except, bind, lift, ret.
  cbn [fst snd].
  repeat (match goal with
          | |- context [update_progress ?a ?p ?s ?m ?n ?l] =>
              destruct (update_progress a p s m n l) as [? [?|?]]
          | |- context [consume ?a ?p ?s ?b ?n ?l] =>
              destruct (consume a p s b n l) as [? [?|?]]
          | |- context [create_literature_review_team ?a ?b ?c ?d] =>
              destruct (create_literature_review_team a b c d) as [?|?]
          end; cbn [fst snd]);
    reflexivity.
Qed.

(** The events of a run whose team is built, with a subscriber that returns
    normally from the events before the error event. *)
Lemma run_review_shown (w : World) (self : LiteratureReviewService)
  (config : ReviewConfig) (cb : Subscriber) (team : Team) :
  quiet_before_error cb ->
  create_literature_review_team w (model_name config) (Some (self_api_key self)) 2
  = Ok team ->
  map shown (fst (run_review w self (Some cb) config []))
  = [(INITIALIZING, 10); (SEARCHING, 25); (SUMMARIZING, 50)]%Z
    ++ loop_shown 0 (stream_length (run_stream team (task_of config)))
    ++ [match stream_failure (run_stream team (task_of config)) with
        | None => (COMPLETED, 100%Z)
        | Some _ => (ERROR, 0%Z)
        end].
Proof.
  intros Hq Hteam.
  rewrite run_review_parts.
  unfold collect, complete, report_failure, try_except, bind, lift.
  rewrite Hteam.
  rewrite update_progress_ok by (apply Hq; simpl; discriminate). cbv iota beta.
  rewrite update_progress_ok by (apply Hq; simpl; discriminate). cbv iota beta.
  rewrite update_progress_ok by (apply Hq; simpl; discriminate). cbv iota beta.
  match goal with
  | |- context [consume w (Some cb) ?s ?a ?n ?l] =>
      destruct (consume_quiet w cb Hq s a n l ltac:(lia)) as [H1 H2];
      destruct (consume w (Some cb) s a n l) as [log1 r1]
  end.
  cbn [fst snd] in H1, H2. subst r1.
  destruct (stream_failure (run_stream team (task_of config))) as [e|].
  - match goal with
    | |- context [update_progress w (Some cb) ERROR ?m ?p ?l] =>
        pose proof (update_progress_log w cb ERROR m p l) as HL;
        destruct (update_progress w (Some cb) ERROR m p l) as [log2 r2]
    end.
    cbn [fst] in HL. subst log2.
    destruct r2; cbn [fst ret]; rewrite map_app, H1; reflexivity.
  - rewrite update_progress_ok by (apply Hq; simpl; discriminate).
    cbn [fst ret]. rewrite map_app, H1. reflexivity.
Qed.

(** The result of a run whose team is built and whose stream stops
    normally, with such a subscriber. *)
Lemma run_review_completes (w : World) (self : LiteratureReviewService)
  (config : ReviewConfig) (cb : Subscriber) (team : Team) :
  quiet_before_error cb ->
  create_literature_review_team w (model_name config) (Some (self_api_key self)) 2
  = Ok team ->
  stream_failure (run_stream team (task_of config)) = None ->
  snd (run_review w self (Some cb) config [])
  = Ok (mkReviewResult true
          (aggregate (blocks_of w (stream_yielded (run_stream team (task_of config)))))
          [] (PrimFloat.sub (time_time w 1) (time_time w 0))
          (Some config) (max_results config)).
Proof.
  intros Hq Hteam Hend.
  rewrite run_review_parts.
  unfold collect, complete, report_failure, try_except, bind, lift.
  rewrite Hteam.
  rewrite update_progress_ok by (apply Hq; simpl; discriminate). cbv iota beta.
  rewrite update_progress_ok by (apply Hq; simpl; discriminate). cbv iota beta.
  rewrite update_progress_ok by (apply Hq; simpl; discriminate). cbv iota beta.
  match goal with
  | |- context [consume w (Some cb) ?s ?a ?n ?l] =>
      destruct (consume_quiet w cb Hq s a n l ltac:(lia)) as [_ H2];
      destruct (consume w (Some cb) s a n l) as [log1 r1]
  end.
  cbn [snd] in H2. subst r1. rewrite Hend.
  rewrite update_progress_ok by (apply Hq; simpl; discriminate).
  reflexivity.
Qed.

(* ================================================================= *)
(** * The claims on the run *)

(** C1, as stated, fails: before it reads the stream the run also emits
    Summarizing at 50 percent. *)
Lemma stated_progress_fails :
  ~ stated_progress (world_of three_messages) demo_service recorder demo_config.
Proof.
  intros H. destruct (H (mkTeam (fun _ => three_messages)) eq_refl) as [H3 _].
  specialize (H3 _ _ _ eq_refl). vm_compute in H3. discriminate.
Qed.

(** C1, amended.  With a subscriber that returns normally from its events,
    a run whose team is built and whose stream yields exactly three
    messages and stops delivers exactly Initializing 10, Searching 25,
    Summarizing 50, Searching 60, Summarizing 80, Summarizing 80,
    Completed 100, and it returns a successful result; a run whose stream
    raises after exactly one message delivers exactly Initializing 10,
    Searching 25, Summarizing 50, Searching 60, Error 0. *)
Theorem progress_sequence (w : World) (self : LiteratureReviewService)
  (config : ReviewConfig) (cb : Subscriber) (team : Team)
  (m1 m2 m3 : Msg) (e : exn) :
  quiet_before_error cb ->
  create_literature_review_team w (model_name config) (Some (self_api_key self)) 2
  = Ok team ->
  (run_stream team (task_of config)
   = Yield m1 (Yield m2 (Yield m3 StopAsyncIteration)) ->
   map shown (fst (run_review w self (Some cb) config []))
   = [(INITIALIZING, 10); (SEARCHING, 25); (SUMMARIZING, 50); (SEARCHING, 60);
      (SUMMARIZING, 80); (SUMMARIZING, 80); (COMPLETED, 100)]%Z
   /\ exists r, snd (run_review w self (Some cb) config []) = Ok r
                /\ success r = true)
  /\ (run_stream team (task_of config) = Yield m1 (StreamRaises e) ->
      map shown (fst (run_review w self (Some cb) config []))
      = [(INITIALIZING, 10); (SEARCHING, 25); (SUMMARIZING, 50); (SEARCHING, 60);
         (ERROR, 0)]%Z).
Proof.
  intros Hq Hteam. split; intros Hs.
  - split.
    + rewrite (run_review_shown w self config cb team Hq Hteam), Hs. reflexivity.
    + eexists. split.
      * apply (run_review_completes w self config cb team Hq Hteam).
        now rewrite Hs.
      * reflexivity.
  - rewrite (run_review_shown w self config cb team Hq Hteam), Hs. reflexivity.
Qed.

Lemma progress_sequence_witness :
  map shown
    (fst (run_review (world_of three_messages) demo_service (Some recorder)
            demo_config []))
  = [(INITIALIZING, 10); (SEARCHING, 25); (SUMMARIZING, 50); (SEARCHING, 60);
     (SUMMARIZING, 80); (SUMMARIZING, 80); (COMPLETED, 100)]%Z
  /\ map shown
       (fst (run_review (world_of one_message_then_failure) demo_service
               (Some recorder) demo_config []))
     = [(INITIALIZING, 10); (SEARCHING, 25); (SUMMARIZING, 50); (SEARCHING, 60);
        (ERROR, 0)]%Z.
Proof.
  split.
  - apply (progress_sequence (world_of three_messages) demo_service demo_config
             recorder (mkTeam (fun _ => three_messages))
             (text_message (lit "Intro text"))
             (text_message (lit "Literature Review:" ++ [nl] ++ lit "- Paper A"))
             bare_message (Exception [])).
    + intros log ev _. reflexivity.
    + reflexivity.
    + reflexivity.
  - apply (progress_sequence (world_of one_message_then_failure) demo_service
             demo_config recorder (mkTeam (fun _ => one_message_then_failure))
             (text_message (lit "Intro text")) bare_message bare_message
             (Exception (lit "connection reset"))).
    + intros log ev _. reflexivity.
    + reflexivity.
    + reflexivity.
Defined.

(** C2, as stated, fails: when building the team raises and the subscriber
    raises on the error event it is handed in the handler, the run raises
    the subscriber's exception and returns no result. *)
Lemma stated_failure_report_fails :
  ~ stated_failure_report
      (world_without_team (Exception (lit "invalid credential")))
      demo_service (Some fragile) demo_config
      (Exception (lit "invalid credential")).
Proof.
  intros [log [r [H _]]]. vm_compute in H. discriminate.
Qed.

(** C2, amended.  When the subscriber, if there is one, returns normally
    from every event, an exception raised while the team is built or while
    the stream is read does not leave [run_review]: the run returns a result
    with [success = false], the fixed prefix followed by the exception's
    description as [error_message], and the elapsed time as
    [execution_time]; the last event handed to the subscriber is Error at
    0 percent with that text. *)
Theorem failure_is_reported (w : World) (self : LiteratureReviewService)
  (progress_callback : option Subscriber) (config : ReviewConfig) (e : exn) :
  quiet progress_callback ->
  (create_literature_review_team w (model_name config) (Some (self_api_key self)) 2
   = Err e
   \/ exists team,
      create_literature_review_team w (model_name config)
        (Some (self_api_key self)) 2 = Ok team
      /\ stream_failure (run_stream team (task_of config)) = Some e) ->
  exists log,
    run_review w self progress_callback config [] = (log, Ok (failed_result w config e))
    /\ success (failed_result w config e) = false
    /\ error_message (failed_result w config e)
       = lit "Error during literature review: " ++ exn_str e
    /\ execution_time (failed_result w config e)
       = PrimFloat.sub (time_time w 1) (time_time w 0)
    /\ (forall cb, progress_callback = Some cb ->
        exists pre ev,
          log = pre ++ [ev] /\ status ev = ERROR /\ progress_percent ev = 0%Z
          /\ message ev = error_text e)
    /\ (progress_callback = None -> log = []).
Proof.
  intros Hq Hfail.
  destruct progress_callback as [cb|].
  - assert (forall log ev, cb log ev = None) as Hcb
        by (intros log ev; now apply (Hq cb)).
    assert (quiet_before_error cb) as Hqb by (intros log ev _; apply Hcb).
    rewrite run_review_parts.
    unfold collect, complete, report_failure, try_except, bind, lift.
    rewrite update_progress_ok by apply Hcb. cbv iota beta.
    destruct Hfail as [Hteam | [team [Hteam Hs]]]; rewrite Hteam.
    + rewrite update_progress_ok by apply Hcb. cbv iota beta.
      eexists. split; [reflexivity|]. repeat split; try discriminate.
      intros cb' _. eexists. eexists. split; [reflexivity|]. repeat split.
    + rewrite update_progress_ok by apply Hcb. cbv iota beta.
      rewrite update_progress_ok by apply Hcb. cbv iota beta.
      match goal with
      | |- context [consume w (Some cb) ?s ?a ?n ?l] =>
          destruct (consume_quiet w cb Hqb s a n l ltac:(lia)) as [_ H2];
          destruct (consume w (Some cb) s a n l) as [log1 r1]
      end.
      cbn [snd] in H2. subst r1. rewrite Hs.
      rewrite update_progress_ok by apply Hcb. cbv iota beta.
      eexists. split; [reflexivity|]. repeat split; try discriminate.
      intros cb' _. eexists. eexists. split; [reflexivity|]. repeat split.
  - rewrite run_review_parts.
    unfold collect, complete, report_failure, try_except, bind, lift.
    rewrite !update_progress_none.
    destruct Hfail as [Hteam | [team [Hteam Hs]]]; rewrite Hteam.
    + exists []. split; [reflexivity|]. repeat split; discriminate.
    + rewrite consume_none, Hs.
      exists []. split; [reflexivity|]. repeat split; discriminate.
Qed.

Lemma failure_is_reported_witness :
  exists log,
    run_review (world_without_team (Exception (lit "invalid credential")))
      demo_service (Some recorder) demo_config []
    = (log, Ok (failed_result
                  (world_without_team (Exception (lit "invalid credential")))
                  demo_config (Exception (lit "invalid credential")))).
Proof.
  destruct (failure_is_reported
              (world_without_team (Exception (lit "invalid credential")))
              demo_service (Some recorder) demo_config
              (Exception (lit "invalid credential"))) as [log [H _]].
  - intros cb log ev [= <-]. reflexivity.
  - left. reflexivity.
  - exists log. exact H.
Defined.

Lemma bind_returns {A B : Type} (c : Run A) (k : A -> Run B)
  (log log' : list ReviewProgress) (b : B) :
  bind c k log = (log', Ok b) ->
  exists a l, c log = (l, Ok a) /\ k a l = (log', Ok b).
Proof.
  unfold bind. destruct (c log) as [l [a|e]]; [|discriminate].
  intros H. now exists a, l.
Qed.

Lemma try_except_returns {A : Type} (c : Run A) (h : exn -> Run A)
  (log log' : list ReviewProgress) (a : A) :
  try_except c h log = (log', Ok a) ->
  c log = (log', Ok a) \/ exists e l, c log = (l, Err e) /\ h e l = (log', Ok a).
Proof.
  unfold try_except. destruct (c log) as [l [x|e]]; intros H.
  - left. exact H.
  - right. now exists e, l.
Qed.

(** C7.  A run that returns a result with [success = true] has built its
    team and read its stream to the end; the result holds the cleaned
    aggregation of the non-empty normalised messages of the stream as
    [content], the configuration it was given as [config], and
    [config.max_results] as [papers_found] (the elapsed time and an empty
    error message besides). *)
Theorem successful_result (w : World) (self : LiteratureReviewService)
  (progress_callback : option Subscriber) (cfg : ReviewConfig)
  (log : list ReviewProgress) (r : ReviewResult) :
  run_review w self progress_callback cfg [] = (log, Ok r) ->
  success r = true ->
  exists team,
    create_literature_review_team w (model_name cfg) (Some (self_api_key self)) 2
    = Ok team
    /\ stream_failure (run_stream team (task_of cfg)) = None
    /\ content r
       = clean_content
           (join [nl; nl]
              (blocks_of w (stream_yielded (run_stream team (task_of cfg)))))
    /\ config r = Some cfg
    /\ papers_found r = max_results cfg
    /\ error_message r = []
    /\ execution_time r = PrimFloat.sub (time_time w 1) (time_time w 0).
Proof.
  intros H Hsucc. rewrite run_review_parts in H.
  destruct (collect w self progress_callback cfg []) as [l [all_messages|e]] eqn:Hc.
  - apply try_except_returns in H. destruct H as [H | [e [l' [_ H]]]].
    + unfold complete in H.
      apply bind_returns in H. destruct H as [u3 [l5 [_ H]]].
      unfold ret in H. injection H as _ <-.
      unfold collect in Hc.
      apply bind_returns in Hc. destruct Hc as [u0 [l0 [_ Hc]]].
      apply bind_returns in Hc. destruct Hc as [team [l1 [Hteam Hc]]].
      apply bind_returns in Hc. destruct Hc as [u1 [l2 [_ Hc]]].
      apply bind_returns in Hc. destruct Hc as [u2 [l3 [_ Hloop]]].
      unfold lift in Hteam. injection Hteam as _ Hteam.
      apply (f_equal snd) in Hloop. cbn [snd] in Hloop.
      apply consume_returns in Hloop. destruct Hloop as [Hend ->].
      exists team. repeat split; assumption.
    + unfold report_failure in H.
      apply bind_returns in H. destruct H as [u [l'' [_ H]]].
      unfold ret in H. injection H as _ <-. discriminate.
  - unfold report_failure in H.
    apply bind_returns in H. destruct H as [u [l' [_ H]]].
    unfold ret in H. injection H as _ <-. discriminate.
Qed.

Lemma successful_result_witness :
  exists team,
    create_literature_review_team (world_of three_messages)
      (model_name demo_config) (Some (self_api_key demo_service)) 2 = Ok team
    /\ stream_failure (run_stream team (task_of demo_config)) = None.
Proof.
  destruct (successful_result (world_of three_messages) demo_service
              (Some recorder) demo_config
              (fst (run_review (world_of three_messages) demo_service
                      (Some recorder) demo_config []))
              (mkReviewResult true
                 (lit "Intro text" ++ [nl; nl] ++ lit "Literature Review:"
                  ++ [nl] ++ lit "- Paper A")
                 [] 3.5%float (Some demo_config) 3))
    as [team [H1 [H2 _]]].
  - vm_compute. reflexivity.
  - reflexivity.
  - exists team. split; assumption.
Defined.

(** The end-to-end scenario of the data above: the report keeps the
    introduction, since its first line already opens the review. *)
Example demo_report :
  snd (run_review (world_of three_messages) demo_service (Some recorder)
         demo_config [])
  = Ok (mkReviewResult true
          (lit "Intro text" ++ [nl; nl] ++ lit "Literature Review:"
           ++ [nl] ++ lit "- Paper A")
          [] 3.5%float (Some demo_config) 3).
Proof. vm_compute. reflexivity. Qed.

(** C10.  Two configurations that differ only in [max_turns] and [api_key]
    give, with the same collaborators and the same subscriber, the same
    events and the same outcome up to the configuration echoed in the
    result: the team is built from [model_name] and the key of the service,
    the task from [topic] and [max_results]. *)
Theorem run_ignores_turns_and_key (w : World) (self : LiteratureReviewService)
  (progress_callback : option Subscriber) (c1 c2 : ReviewConfig)
  (log : list ReviewProgress) :
  topic c1 = topic c2 ->
  max_results c1 = max_results c2 ->
  model_name c1 = model_name c2 ->
  fst (run_review w self progress_callback c1 log)
  = fst (run_review w self progress_callback c2 log)
  /\ without_config (snd (run_review w self progress_callback c1 log))
     = without_config (snd (run_review w self progress_callback c2 log)).
Proof.
  intros Ht Hr Hm.
  rewrite !run_review_parts.
  unfold collect, complete, report_failure, failed_result_at, task_of.
  rewrite Ht, Hr, Hm.
  unfold try_except, bind, lift, ret.
  repeat (match goal with
          | |- context [update_progress ?a ?p ?s ?m ?n ?l] =>
              destruct (update_progress a p s m n l) as [? [?|?]]
          | |- context [consume ?a ?p ?s ?b ?n ?l] =>
              destruct (consume a p s b n l) as [? [?|?]]
          | |- context [create_literature_review_team ?a ?b ?c ?d] =>
              destruct (create_literature_review_team a b c d) as [?|?]
          end; cbv iota beta);
    split; reflexivity.
Qed.

Lemma run_ignores_turns_and_key_witness :
  fst (run_review (world_of three_messages) demo_service (Some recorder)
         demo_config [])
  = fst (run_review (world_of three_messages) demo_service (Some recorder)
           (mkReviewConfig (lit "federated learning") 3
              (lit "deepseek/deepseek-chat") 7 (Some (lit "sk-other"))) [])
  /\ without_config
       (snd (run_review (world_of three_messages) demo_service (Some recorder)
               demo_config []))
     = without_config
         (snd (run_review (world_of three_messages) demo_service (Some recorder)
                 (mkReviewConfig (lit "federated learning") 3
                    (lit "deepseek/deepseek-chat") 7 (Some (lit "sk-other"))) [])).
Proof.
  apply (run_ignores_turns_and_key (world_of three_messages) demo_service
           (Some recorder) demo_config
           (mkReviewConfig (lit "federated learning") 3
              (lit "deepseek/deepseek-chat") 7 (Some (lit "sk-other"))) []);
    reflexivity.
Defined.

(* ================================================================= *)
(** * Further properties of the aggregation *)

Lemma dedup_from_nil_iff (l : list str) : dedup_from [] l = [] <-> l = [].
Proof.
  split; [|now intros ->]. intros H. destruct l as [|x l]; [reflexivity|].
  assert (In x (dedup_from [] (x :: l))) as F by (apply dedup_in_iff; now left).
  rewrite H in F. contradiction.
Qed.

Lemma filter_nil_iff (f : str -> bool) (l : list str) :
  filter f l = [] <-> forall x, In x l -> f x = false.
Proof.
  induction l as [|y l IH]; simpl.
  - split; [intros _ x [] | reflexivity].
  - destruct (f y) eqn:E.
    + split; [discriminate|]. intros H. specialize (H y (or_introl eq_refl)).
      congruence.
    + rewrite IH. split.
      * intros H x [<- | Hx]; [assumption | now apply H].
      * intros H x Hx. apply H. now right.
Qed.

(** Nothing is kept exactly when every section of the input is noise. *)
Lemma clean_sections_nil_iff (content : str) :
  clean_sections_of content = []
  <-> Forall (fun sec => noise sec = true) (sections content).
Proof.
  rewrite clean_sections_of_eq, dedup_from_nil_iff, filter_nil_iff.
  unfold sections. rewrite Forall_forall. split.
  - intros H sec Hin. apply filter_In in Hin. destruct Hin as [Hin Hne].
    specialize (H sec Hin). unfold keep in H. rewrite Hne in H. simpl in H.
    now apply negb_false_iff in H.
  - intros H x Hx. unfold keep. destruct (nonempty x) eqn:E; [|reflexivity].
    simpl. apply negb_false_iff. apply H. apply filter_In. now split.
Qed.

Lemma clean_content_nil_iff (content : str) :
  clean_content content = [] <-> clean_sections_of content = [].
Proof.
  split.
  - intros H. destruct (clean_sections_of content) as [|x l] eqn:E; [reflexivity|].
    exfalso. rewrite clean_content_eq in H. cbv zeta in H. rewrite E in H.
    assert (Forall good_section (x :: l)) as G
        by (rewrite <- E; apply clean_sections_good).
    destruct (join_good_rstrip (x :: l) ltac:(discriminate) G) as [_ Hne].
    pose proof (extract_final_review_only_nonempty _ Hne
                  (join_good_stripped _ G) (join_good_noise _ G)) as F.
    destruct (extract_final_review_only (join [nl; nl] (x :: l)));
      [now apply F | discriminate].
  - intros H. rewrite clean_content_eq. cbv zeta. now rewrite H.
Qed.

(** The branch that returns [cleaned_content] never differs from the
    extraction. *)
Lemma clean_content_is_extraction (content : str) :
  clean_content content
  = extract_final_review_only (join [nl; nl] (clean_sections_of content)).
Proof.
  rewrite clean_content_lines. symmetry.
  apply extract_final_review_only_all;
    [apply join_good_stripped, clean_sections_good | apply cleaned_noise].
Qed.

(** X1.  No marker of either list occurs anywhere in the text
    [clean_content] returns, so both predicates are false on it. *)
Theorem report_holds_no_marker (content : str) :
  is_function_call_message (PyStr (clean_content content)) = false
  /\ is_raw_json_data (PyStr (clean_content content)) = false
  /\ forall m, In m function_indicators \/ In m json_indicators ->
               ~ occurs m (clean_content content).
Proof.
  pose proof (clean_content_noise content) as H.
  pose proof H as H'. unfold noise in H'. apply orb_false_iff in H'.
  destruct H' as [H1 H2]. repeat split; try assumption.
  intros m Hm. rewrite noise_false in H. apply H.
  unfold indicators. apply in_or_app. exact Hm.
Qed.

(** X2.  The text [clean_content] returns has no whitespace at its ends,
    and neither has any of its lines. *)
Theorem report_is_trimmed (content : str) :
  strip (clean_content content) = clean_content content
  /\ Forall (fun line => strip line = line) (split [nl] (clean_content content)).
Proof.
  destruct (clean_content_shape content) as [Hl Hs]. split; assumption.
Qed.

(** X3.  [clean_content] returns the empty string exactly when every
    section of its input is noise (an input without sections included);
    otherwise it returns what [extract_final_review_only] makes of the kept
    sections, which is not empty: the alternative [cleaned_content] of its
    last line is never a different text. *)
Theorem report_empty_iff_all_noise (content : str) :
  (clean_content content = []
   <-> Forall (fun sec => noise sec = true) (sections content))
  /\ clean_content content
     = extract_final_review_only (join [nl; nl] (clean_sections_of content)).
Proof.
  split.
  - rewrite clean_content_nil_iff. apply clean_sections_nil_iff.
  - apply clean_content_is_extraction.
Qed.

(** X4.  From its second pass on [clean_content] changes nothing: a third
    pass returns the text of the second. *)
Theorem third_pass_changes_nothing (content : str) :
  clean_content (clean_content (clean_content content))
  = clean_content (clean_content content).
Proof.
  destruct (clean_content_again content) as [_ [E2 E3]].
  destruct (clean_content_again (clean_content content)) as [_ [F2 _]].
  cbv zeta in E2, E3, F2. rewrite F2, E3, E2. f_equal.
  apply dedup_from_id; [apply dedup_from_NoDup | intros x _ []].
Qed.

(** The sections the loop keeps are the sections of the input that are not
    noise. *)
Lemma clean_sections_in_iff (content sec : str) :
  In sec (clean_sections_of content)
  <-> In sec (sections content) /\ noise sec = false.
Proof.
  rewrite clean_sections_of_eq, dedup_in_iff. unfold sections.
  rewrite !filter_In. unfold keep. rewrite andb_true_iff, negb_true_iff. tauto.
Qed.

(** X5.  The loop of [clean_content] loses no legitimate section and keeps
    no copy: a section of the input is kept if and only if it is not noise,
    and a kept section occurs exactly once among the kept ones. *)
Theorem every_plain_section_kept_once (content sec : str) :
  (In sec (clean_sections_of content)
   <-> In sec (sections content) /\ noise sec = false)
  /\ (In sec (sections content) -> noise sec = false ->
      count_occ (list_eq_dec N.eq_dec) (clean_sections_of content) sec = 1).
Proof.
  split; [apply clean_sections_in_iff|]. intros Hin Hn.
  assert (NoDup (clean_sections_of content)) as Hnd
      by (rewrite clean_sections_of_eq; apply dedup_from_NoDup).
  rewrite (NoDup_count_occ' (list_eq_dec N.eq_dec)) in Hnd. apply Hnd.
  apply clean_sections_in_iff. now split.
Qed.

(** X6.  Both predicates are closed under containment: a string that holds
    a string classified as tool noise (as a raw record) is classified so
    too. *)
Theorem noise_spreads_to_containing_text (s t : str) :
  occurs s t ->
  (is_function_call_message (PyStr s) = true ->
   is_function_call_message (PyStr t) = true)
  /\ (is_raw_json_data (PyStr s) = true -> is_raw_json_data (PyStr t) = true).
Proof.
  intros Hst. rewrite !is_function_call_message_str, !is_raw_json_data_str.
  rewrite !any_in_spec. split; intros [m [Hin Hocc]]; exists m;
    (split; [assumption | now apply occurs_trans with s]).
Qed.

Lemma noise_spreads_to_containing_text_witness :
  (is_function_call_message (PyStr (lit "call_id=7")) = true ->
   is_function_call_message (PyStr (lit "see call_id=7 above")) = true)
  /\ (is_raw_json_data (PyStr (lit "call_id=7")) = true ->
      is_raw_json_data (PyStr (lit "see call_id=7 above")) = true).
Proof.
  apply (noise_spreads_to_containing_text (lit "call_id=7")
           (lit "see call_id=7 above")).
  now exists (lit "see "), (lit " above").
Defined.

Lemma from_start_shape (l : list str) :
  from_start l = []
  \/ exists pre l0 post,
      l = pre ++ l0 :: post
      /\ starts_review (strip l0) = true
      /\ from_start l = map strip (l0 :: post).
Proof.
  induction l as [|x l IH]; [now left|]. cbn [from_start].
  destruct (starts_review (strip x)) eqn:E.
  - right. exists [], x, l. repeat split. exact E.
  - destruct IH as [IH | [pre [l0 [post [-> [H0 IH]]]]]]; [now left|].
    right. exists (x :: pre), l0, post. repeat split; assumption.
Qed.

(** The first line of the stripped join of lines that begin with a
    non-empty stripped line is that line. *)
Lemma strip_join_first_line (x0 : str) (rest : list str) :
  x0 <> [] -> stripped x0 -> ~ occurs [nl] x0 ->
  exists rest', split [nl] (strip (join [nl] (x0 :: rest))) = x0 :: rest'.
Proof.
  intros Hne Hs Hno. destruct x0 as [|c x]; [contradiction|].
  pose proof (stripped_head _ _ Hs) as Hc.
  assert (lstrip (join [nl] ((c :: x) :: rest)) = join [nl] ((c :: x) :: rest))
    as Hl.
  { destruct (join_head [nl] c x rest) as [t ->]. simpl. now rewrite Hc. }
  unfold strip. rewrite Hl. destruct rest as [|y rest].
  - simpl join. rewrite (stripped_rstrip _ Hs), split_none by assumption.
    now exists [].
  - change (join [nl] ((c :: x) :: y :: rest))
      with ((c :: x) ++ [nl] ++ join [nl] (y :: rest)).
    rewrite rstrip_app.
    change ([nl] ++ join [nl] (y :: rest)) with (nl :: join [nl] (y :: rest)).
    rewrite rstrip_cons, isspace_nl.
    destruct (rstrip (join [nl] (y :: rest))) as [|d r].
    + rewrite (stripped_rstrip _ Hs), split_none by assumption. now exists [].
    + change ((c :: x) ++ nl :: d :: r) with ((c :: x) ++ [nl] ++ d :: r).
      rewrite split_app; [|exact nl_sep | now apply first_at_nl].
      now exists (split [nl] (d :: r)).
Qed.

Lemma extract_final_review_only_again (s : str) :
  extract_final_review_only (extract_final_review_only s)
  = extract_final_review_only s.
Proof.
  destruct (extract_final_review_only_shape s) as [Hl Hs].
  destruct (from_start_shape (split [nl] s))
    as [E | [pre [l0 [post [Hsplit [H0 E]]]]]].
  - rewrite (extract_final_review_only_eq s), E. reflexivity.
  - assert (strip l0 <> []) as Hne.
    { intros F. rewrite F, starts_review_nil in H0. discriminate. }
    assert (~ occurs [nl] (strip l0)) as Hno.
    { intros Hocc.
      pose proof (split_piece_no_sep [nl] s nl_sep) as F.
      rewrite Hsplit in F. apply Forall_app in F. destruct F as [_ F].
      inversion F as [|? ? F0 _]; subst. apply F0.
      apply occurs_trans with (strip l0); [assumption | apply occurs_strip]. }
    destruct (strip_join_first_line (strip l0) (map strip post) Hne
                (stripped_strip l0) Hno) as [rest' Hfirst].
    rewrite (extract_final_review_only_eq s) in Hl, Hs |- *.
    rewrite E in Hl, Hs |- *. cbn [map] in Hl, Hs |- *.
    set (o := strip (join [nl] (strip l0 :: map strip post))) in *.
    rewrite (extract_final_review_only_eq o), Hfirst.
    cbn [from_start]. rewrite strip_idem, H0.
    change (strip (strip l0) :: map strip rest')
      with (map strip (strip l0 :: rest')).
    rewrite <- Hfirst, map_strip_id by exact Hl.
    rewrite join_split by exact nl_sep. exact Hs.
Qed.

(** X7.  [extract_final_review_only] is idempotent: applied to its own
    output it returns that output. *)
Theorem extraction_is_idempotent (s : str) :
  extract_final_review_only (extract_final_review_only s)
  = extract_final_review_only s.
Proof. apply extract_final_review_only_again. Qed.

(* ================================================================= *)
(** * Further properties of the run *)

Lemma loop_shown_zero (k : nat) :
  loop_shown 0 k
  = match k with
    | O => []
    | S k' => (SEARCHING, 60%Z) :: repeat (SUMMARIZING, 80%Z) k'
    end.
Proof. destruct k; reflexivity. Qed.

(** The events of a run whose team cannot be built. *)
Lemma run_review_shown_no_team (w : World) (self : LiteratureReviewService)
  (cfg : ReviewConfig) (cb : Subscriber) (e : exn) :
  quiet_before_error cb ->
  create_literature_review_team w (model_name cfg) (Some (self_api_key self)) 2
  = Err e ->
  map shown (fst (run_review w self (Some cb) cfg []))
  = [(INITIALIZING, 10); (ERROR, 0)]%Z.
Proof.
  intros Hq Hteam.
  rewrite run_review_parts.
  unfold collect, complete, report_failure, try_except, bind, lift.
  rewrite Hteam.
  rewrite update_progress_ok by (apply Hq; simpl; discriminate). cbv iota beta.
  match goal with
  | |- context [update_progress w (Some cb) ERROR ?m ?p ?l] =>
      pose proof (update_progress_log w cb ERROR m p l) as HL;
      destruct (update_progress w (Some cb) ERROR m p l) as [log2 r2]
  end.
  cbn [fst] in HL. subst log2. destruct r2; reflexivity.
Qed.

Lemma run_review_expected_shown (w : World) (self : LiteratureReviewService)
  (cfg : ReviewConfig) (cb : Subscriber) :
  quiet_before_error cb ->
  map shown (fst (run_review w self (Some cb) cfg [])) = expected_shown w self cfg.
Proof.
  intros Hq. unfold expected_shown.
  destruct (create_literature_review_team w (model_name cfg)
              (Some (self_api_key self)) 2) as [team|e] eqn:Hteam.
  - rewrite (run_review_shown w self cfg cb team Hq Hteam), loop_shown_zero.
    reflexivity.
  - apply (run_review_shown_no_team w self cfg cb e Hq Hteam).
Qed.

(** The run without a subscriber. *)
Lemma run_review_none (w : World) (self : LiteratureReviewService)
  (cfg : ReviewConfig) (log : list ReviewProgress) :
  run_review w self None cfg log = (log, Ok (expected_result w self cfg)).
Proof.
  rewrite run_review_parts.
  unfold expected_result, collect, complete, report_failure, try_except, bind, lift.
  rewrite !update_progress_none.
  destruct (create_literature_review_team w (model_name cfg)
              (Some (self_api_key self)) 2) as [team|e]; [|reflexivity].
  rewrite consume_none.
  destruct (stream_failure (run_stream team (task_of cfg))); reflexivity.
Qed.

(** The run with a subscriber that always returns. *)
Lemma run_review_quiet (w : World) (self : LiteratureReviewService)
  (cfg : ReviewConfig) (cb : Subscriber) :
  (forall log ev, cb log ev = None) ->
  snd (run_review w self (Some cb) cfg []) = Ok (expected_result w self cfg).
Proof.
  intros Hcb.
  assert (quiet_before_error cb) as Hq by (intros log ev _; apply Hcb).
  unfold expected_result.
  destruct (create_literature_review_team w (model_name cfg)
              (Some (self_api_key self)) 2) as [team|e] eqn:Hteam.
  - destruct (stream_failure (run_stream team (task_of cfg))) as [e|] eqn:Hs.
    + rewrite run_review_parts.
      unfold collect, complete, report_failure, try_except, bind, lift.
      rewrite Hteam.
      rewrite update_progress_ok by apply Hcb. cbv iota beta.
      rewrite update_progress_ok by apply Hcb. cbv iota beta.
      rewrite update_progress_ok by apply Hcb. cbv iota beta.
      match goal with
      | |- context [consume w (Some cb) ?s ?a ?n ?l] =>
          destruct (consume_quiet w cb Hq s a n l ltac:(lia)) as [_ H2];
          destruct (consume w (Some cb) s a n l) as [log1 r1]
      end.
      cbn [snd] in H2. subst r1. rewrite Hs.
      rewrite update_progress_ok by apply Hcb. reflexivity.
    + now apply run_review_completes.
  - rewrite run_review_parts.
    unfold collect, complete, report_failure, try_except, bind, lift.
    rewrite Hteam.
    rewrite update_progress_ok by apply Hcb. cbv iota beta.
    rewrite update_progress_ok by apply Hcb. reflexivity.
Qed.

Lemma update_progress_raises (w : World) (pc : option Subscriber)
  (st : ReviewStatus) (m : str) (p : Z) (l l' : list ReviewProgress) (e : exn) :
  update_progress w pc st m p l = (l', Err e) ->
  exists cb,
    pc = Some cb
    /\ cb l (mkReviewProgress st m p (datetime_now w (length l))) = Some e.
Proof.
  unfold update_progress. destruct pc as [cb|]; [|discriminate].
  destruct (cb l _) as [e'|] eqn:E; [|discriminate].
  intros [= _ <-]. now exists cb.
Qed.

Lemma report_failure_returns (w : World) (pc : option Subscriber)
  (cfg : ReviewConfig) (n : nat) (e : exn) (l log : list ReviewProgress)
  (r : ReviewResult) :
  report_failure w pc cfg n e l = (log, Ok r) -> r = failed_result_at n w cfg e.
Proof.
  unfold report_failure. intros H.
  apply bind_returns in H. destruct H as [u [l' [_ H]]].
  unfold ret in H. now injection H as _ <-.
Qed.

Lemma report_failure_raises (w : World) (pc : option Subscriber)
  (cfg : ReviewConfig) (n : nat) (e0 e : exn) (l : list ReviewProgress) :
  snd (report_failure w pc cfg n e0 l) = Err e ->
  exists cb,
    pc = Some cb
    /\ cb l (mkReviewProgress ERROR (error_text e0) 0 (datetime_now w (length l)))
       = Some e.
Proof.
  unfold report_failure, bind.
  destruct (update_progress w pc ERROR (error_text e0) 0 l) as [l' [u|e']] eqn:E;
    [discriminate|].
  cbn [snd]. intros [= <-]. now apply update_progress_raises with l'.
Qed.

(** What a run that returns has returned: the result of its collaborators
    when the [try] block went through; a failure report with the second
    reading of the clock when the block failed before its own reading; one
    with the third reading when the subscriber raised on the completion
    event. *)
Lemma run_review_returns (w : World) (self : LiteratureReviewService)
  (pc : option Subscriber) (cfg : ReviewConfig)
  (log0 log : list ReviewProgress) (r : ReviewResult) :
  run_review w self pc cfg log0 = (log, Ok r) ->
  (exists team,
      create_literature_review_team w (model_name cfg) (Some (self_api_key self)) 2
      = Ok team
      /\ stream_failure (run_stream team (task_of cfg)) = None
      /\ r = expected_result w self cfg)
  \/ (exists e, r = failed_result w cfg e)
  \/ (exists cb l e,
         pc = Some cb
         /\ cb l (mkReviewProgress COMPLETED
                    (lit "Literature review completed successfully!") 100
                    (datetime_now w (length l))) = Some e
         /\ r = failed_result_at 2 w cfg e).
Proof.
  intros H. rewrite run_review_parts in H.
  destruct (collect w self pc cfg log0) as [l [all_messages|e]] eqn:Hc.
  - apply try_except_returns in H. destruct H as [H | [e [l' [Hdone H]]]].
    + left. unfold complete in H.
      apply bind_returns in H. destruct H as [u3 [l5 [_ H]]].
      unfold ret in H. injection H as _ <-.
      unfold collect in Hc.
      apply bind_returns in Hc. destruct Hc as [u0 [l0 [_ Hc]]].
      apply bind_returns in Hc. destruct Hc as [team [l1 [Hteam Hc]]].
      apply bind_returns in Hc. destruct Hc as [u1 [l2 [_ Hc]]].
      apply bind_returns in Hc. destruct Hc as [u2 [l3 [_ Hloop]]].
      unfold lift in Hteam. injection Hteam as _ Hteam.
      apply (f_equal snd) in Hloop. cbn [snd] in Hloop.
      apply consume_returns in Hloop. destruct Hloop as [Hend ->].
      exists team. repeat split; try assumption.
      unfold expected_result. now rewrite Hteam, Hend.
    + right. right. apply report_failure_returns in H.
      unfold complete, bind in Hdone.
      destruct (update_progress w pc COMPLETED
                  (lit "Literature review completed successfully!") 100 l)
        as [l1 [u|e1]] eqn:E; [discriminate|].
      injection Hdone as _ <-.
      apply update_progress_raises in E. destruct E as [cb [-> E]].
      now exists cb, l, e1.
  - right. left. apply report_failure_returns in H. now exists e.
Qed.

(** X8.  With a subscriber that returns normally from the events before the
    error event, a run delivers Initializing 10 and Error 0 when the team
    cannot be built; when it is built and the stream yields [n] messages it
    delivers Initializing 10, Searching 25, Summarizing 50, then Searching
    60 for the first message and Summarizing 80 for each later one, and
    last Completed 100 if the stream stopped or Error 0 if it raised:
    [n + 4] events. *)
Theorem progress_for_any_stream (w : World) (self : LiteratureReviewService)
  (cfg : ReviewConfig) (cb : Subscriber) :
  quiet_before_error cb ->
  (forall e,
      create_literature_review_team w (model_name cfg) (Some (self_api_key self)) 2
      = Err e ->
      map shown (fst (run_review w self (Some cb) cfg []))
      = [(INITIALIZING, 10); (ERROR, 0)]%Z)
  /\ (forall team,
         create_literature_review_team w (model_name cfg)
           (Some (self_api_key self)) 2 = Ok team ->
         map shown (fst (run_review w self (Some cb) cfg []))
         = [(INITIALIZING, 10); (SEARCHING, 25); (SUMMARIZING, 50)]%Z
           ++ match stream_length (run_stream team (task_of cfg)) with
              | O => []
              | S k => (SEARCHING, 60%Z) :: repeat (SUMMARIZING, 80%Z) k
              end
           ++ [match stream_failure (run_stream team (task_of cfg)) with
               | None => (COMPLETED, 100%Z)
               | Some _ => (ERROR, 0%Z)
               end]
         /\ length (fst (run_review w self (Some cb) cfg []))
            = stream_length (run_stream team (task_of cfg)) + 4).
Proof.
  intros Hq. split.
  - intros e Hteam. now apply run_review_shown_no_team with e.
  - intros team Hteam.
    pose proof (run_review_shown w self cfg cb team Hq Hteam) as H.
    rewrite loop_shown_zero in H. split; [exact H|].
    apply (f_equal (@length _)) in H. rewrite length_map in H. rewrite H.
    rewrite !length_app.
    destruct (stream_length (run_stream team (task_of cfg))) as [|k]; simpl.
    + reflexivity.
    + rewrite repeat_length. lia.
Qed.

Lemma progress_for_any_stream_witness :
  length (fst (run_review (world_of three_messages) demo_service (Some recorder)
                 demo_config []))
  = stream_length three_messages + 4.
Proof.
  destruct (progress_for_any_stream (world_of three_messages) demo_service
              demo_config recorder) as [_ H].
  - intros log ev _. reflexivity.
  - destruct (H (mkTeam (fun _ => three_messages)) eq_refl) as [_ Hlen].
    exact Hlen.
Defined.

Lemma tail_of_progress_bounded (a : Z) (k : nat) :
  (a <= 80)%Z -> Forall (Z.le a) (repeat 80%Z k ++ [100%Z]).
Proof.
  intros Ha. apply Forall_app. split.
  - apply Forall_forall. intros x Hx. apply repeat_spec in Hx. lia.
  - constructor; [lia | constructor].
Qed.

Lemma sorted_tail_of_progress (k : nat) :
  StronglySorted Z.le (repeat 80%Z k ++ [100%Z]).
Proof.
  induction k as [|k IH]; simpl.
  - repeat constructor.
  - constructor; [exact IH|]. apply tail_of_progress_bounded. lia.
Qed.

Lemma map_percent_shown (l : list ReviewProgress) :
  map progress_percent l = map snd (map shown l).
Proof. rewrite map_map. reflexivity. Qed.

(** X9.  Along a run that completes (the team is built and the stream
    stops normally), with such a subscriber, the percentages of the events
    never decrease: the progress bar does not go back. *)
Theorem progress_never_goes_back (w : World) (self : LiteratureReviewService)
  (cfg : ReviewConfig) (cb : Subscriber) (team : Team) :
  quiet_before_error cb ->
  create_literature_review_team w (model_name cfg) (Some (self_api_key self)) 2
  = Ok team ->
  stream_failure (run_stream team (task_of cfg)) = None ->
  Sorted Z.le
    (map progress_percent (fst (run_review w self (Some cb) cfg []))).
Proof.
  intros Hq Hteam Hend.
  rewrite map_percent_shown, (run_review_shown w self cfg cb team Hq Hteam).
  rewrite Hend, loop_shown_zero.
  destruct (stream_length (run_stream team (task_of cfg))) as [|k].
  - simpl. repeat constructor; lia.
  - rewrite !map_app. cbn [map snd app].
    replace (map snd (repeat (SUMMARIZING, 80%Z) k)) with (repeat 80%Z k)
      by (induction k; simpl; congruence).
    apply StronglySorted_Sorted.
    do 4 (apply SSorted_cons;
          [|repeat (apply Forall_cons; [lia|]);
            apply tail_of_progress_bounded; lia]).
    apply sorted_tail_of_progress.
Qed.

Lemma progress_never_goes_back_witness :
  Sorted Z.le
    (map progress_percent
       (fst (run_review (world_of three_messages) demo_service (Some recorder)
               demo_config []))).
Proof.
  apply (progress_never_goes_back (world_of three_messages) demo_service
           demo_config recorder (mkTeam (fun _ => three_messages))).
  - intros log ev _. reflexivity.
  - reflexivity.
  - reflexivity.
Defined.

Lemma loop_shown_not_terminal (k : nat) :
  Forall (fun p : ReviewStatus * Z => fst p <> COMPLETED /\ fst p <> ERROR)
    (loop_shown 0 k).
Proof.
  rewrite loop_shown_zero. destruct k as [|k]; [constructor|].
  constructor; [split; discriminate|].
  apply Forall_forall. intros x Hx. apply repeat_spec in Hx. subst.
  split; discriminate.
Qed.

Lemma map_shown_snoc (log : list ReviewProgress)
  (front : list (ReviewStatus * Z)) (t : ReviewStatus * Z) :
  map shown log = front ++ [t] ->
  exists pre last,
    log = pre ++ [last] /\ map shown pre = front /\ shown last = t.
Proof.
  intros H. apply map_eq_app in H. destruct H as [pre [tl [-> [Hpre Htl]]]].
  destruct tl as [|last [|x tl]]; try discriminate.
  injection Htl as Hlast. now exists pre, last.
Qed.

Lemma not_terminal_of_shown (pre : list ReviewProgress)
  (front : list (ReviewStatus * Z)) :
  map shown pre = front ->
  Forall (fun p : ReviewStatus * Z => fst p <> COMPLETED /\ fst p <> ERROR) front ->
  Forall (fun ev => status ev <> COMPLETED /\ status ev <> ERROR) pre.
Proof.
  intros <- H. rewrite Forall_map in H. exact H.
Qed.

(** X10.  With a subscriber that returns normally from the events before
    the error event, the events of a run end with exactly one terminal
    event: the last event is Completed at 100 or Error at 0 and no earlier
    event is either; it is Completed exactly when the run returns a
    successful result. *)
Theorem run_ends_with_one_terminal_event (w : World)
  (self : LiteratureReviewService) (cfg : ReviewConfig) (cb : Subscriber) :
  quiet_before_error cb ->
  exists pre last,
    fst (run_review w self (Some cb) cfg []) = pre ++ [last]
    /\ Forall (fun ev => status ev <> COMPLETED /\ status ev <> ERROR) pre
    /\ ((shown last = (COMPLETED, 100%Z)
         /\ exists r, snd (run_review w self (Some cb) cfg []) = Ok r
                      /\ success r = true)
        \/ (shown last = (ERROR, 0%Z)
            /\ forall r, snd (run_review w self (Some cb) cfg []) = Ok r ->
                         success r = false)).
Proof.
  intros Hq.
  destruct (create_literature_review_team w (model_name cfg)
              (Some (self_api_key self)) 2) as [team|e] eqn:Hteam.
  - pose proof (run_review_shown w self cfg cb team Hq Hteam) as H.
    rewrite app_assoc in H. apply map_shown_snoc in H.
    destruct H as [pre [last [Hlog [Hpre Hlast]]]].
    exists pre, last. split; [exact Hlog|]. split.
    + apply (not_terminal_of_shown pre _ Hpre). apply Forall_app. split.
      * repeat constructor; discriminate.
      * apply loop_shown_not_terminal.
    + destruct (stream_failure (run_stream team (task_of cfg))) as [e|] eqn:Hs.
      * right. split; [exact Hlast|]. intros r Hr.
        destruct (run_review w self (Some cb) cfg []) as [log res] eqn:E.
        cbn [snd] in Hr. subst res.
        apply run_review_returns in E.
        destruct E as [[team' [Ht' [He' _]]]
                      | [[e' ->] | [cb' [l' [e' [_ [_ ->]]]]]]];
          [|reflexivity|reflexivity].
        rewrite Hteam in Ht'. injection Ht' as <-. congruence.
      * left. split; [exact Hlast|]. eexists. split.
        -- now apply (run_review_completes w self cfg cb team Hq Hteam).
        -- reflexivity.
  - pose proof (run_review_shown_no_team w self cfg cb e Hq Hteam) as H.
    change [(INITIALIZING, 10%Z); (ERROR, 0%Z)]
      with ([(INITIALIZING, 10%Z)] ++ [(ERROR, 0%Z)]) in H.
    apply map_shown_snoc in H. destruct H as [pre [last [Hlog [Hpre Hlast]]]].
    exists pre, last. split; [exact Hlog|]. split.
    + apply (not_terminal_of_shown pre _ Hpre). repeat constructor; discriminate.
    + right. split; [exact Hlast|]. intros r Hr.
      destruct (run_review w self (Some cb) cfg []) as [log res] eqn:E.
      cbn [snd] in Hr. subst res.
      apply run_review_returns in E.
      destruct E as [[team' [Ht' _]]
                    | [[e' ->] | [cb' [l' [e' [_ [_ ->]]]]]]];
        [congruence | reflexivity | reflexivity].
Qed.

Lemma run_ends_with_one_terminal_event_witness :
  exists pre last,
    fst (run_review (world_of one_message_then_failure) demo_service
           (Some fragile) demo_config []) = pre ++ [last]
    /\ Forall (fun ev => status ev <> COMPLETED /\ status ev <> ERROR) pre.
Proof.
  destruct (run_ends_with_one_terminal_event
              (world_of one_message_then_failure) demo_service demo_config
              fragile) as [pre [last [H1 [H2 _]]]].
  - intros log ev Hev. unfold fragile. destruct (status ev); congruence.
  - now exists pre, last.
Defined.

(** X11.  Without a subscriber [run_review] never raises and delivers no
    event: it returns the result its collaborators fix, a failure report
    when building the team or reading the stream raises and the cleaned
    aggregation otherwise. *)
Theorem run_without_subscriber_returns (w : World)
  (self : LiteratureReviewService) (cfg : ReviewConfig)
  (log : list ReviewProgress) :
  run_review w self None cfg log = (log, Ok (expected_result w self cfg))
  /\ (success (expected_result w self cfg) = true
      <-> exists team,
          create_literature_review_team w (model_name cfg)
            (Some (self_api_key self)) 2 = Ok team
          /\ stream_failure (run_stream team (task_of cfg)) = None).
Proof.
  split; [apply run_review_none|]. unfold expected_result.
  destruct (create_literature_review_team w (model_name cfg)
              (Some (self_api_key self)) 2) as [team|e].
  - destruct (stream_failure (run_stream team (task_of cfg))) eqn:Hs; simpl.
    + split; [discriminate|]. intros [team' [[= <-] H]]. congruence.
    + split; [|reflexivity]. intros _. now exists team.
  - simpl. split; [discriminate|]. intros [team [H _]]. discriminate.
Qed.

(** X12.  An exception leaves [run_review] only when the subscriber raises
    it on the error event it is handed in the handler: whatever else
    raises, the team, the stream, or the subscriber on an earlier event, is
    turned into a failure report. *)
Theorem only_the_error_event_can_raise (w : World)
  (self : LiteratureReviewService) (pc : option Subscriber) (cfg : ReviewConfig)
  (log0 : list ReviewProgress) (e : exn) :
  snd (run_review w self pc cfg log0) = Err e ->
  exists cb log e0,
    pc = Some cb
    /\ cb log (mkReviewProgress ERROR
                 (lit "Error during literature review: " ++ exn_str e0) 0
                 (datetime_now w (length log))) = Some e.
Proof.
  rewrite run_review_parts.
  destruct (collect w self pc cfg log0) as [l [all_messages|e0]].
  - unfold try_except.
    destruct (complete w pc cfg all_messages l) as [l' [r|e0]]; [discriminate|].
    intros H. apply report_failure_raises in H. destruct H as [cb [-> H]].
    now exists cb, l', e0.
  - intros H. apply report_failure_raises in H. destruct H as [cb [-> H]].
    now exists cb, l, e0.
Qed.

Lemma only_the_error_event_can_raise_witness :
  exists cb log e0,
    Some fragile = Some cb
    /\ cb log (mkReviewProgress ERROR
                 (lit "Error during literature review: " ++ exn_str e0) 0
                 (datetime_now
                    (world_without_team (Exception (lit "invalid credential")))
                    (length log)))
       = Some (Exception (lit "display closed")).
Proof.
  apply (only_the_error_event_can_raise
           (world_without_team (Exception (lit "invalid credential")))
           demo_service (Some fragile) demo_config []).
  reflexivity.
Defined.



(** The run in which the subscriber raises on the completion event: the
    handler takes the third reading of the clock, 107.0, and the result
    reports 7.0 seconds where the [try] block had computed 3.5. *)
Example late_failure_takes_third_reading :
  snd (run_review (world_of three_messages) demo_service
         (Some fragile_at_completion) demo_config [])
  = Ok (mkReviewResult false []
          (lit "Error during literature review: display closed")
          7%float (Some demo_config) 0)
  /\ map shown
       (fst (run_review (world_of three_messages) demo_service
               (Some fragile_at_completion) demo_config []))
     = [(INITIALIZING, 10); (SEARCHING, 25); (SUMMARIZING, 50); (SEARCHING, 60);
        (SUMMARIZING, 80); (SUMMARIZING, 80); (COMPLETED, 100); (ERROR, 0)]%Z.
Proof. split; vm_compute; reflexivity. Qed.

(** X14.  A subscriber that always returns does not change the result: the
    run returns what it returns without a subscriber. *)
Theorem subscriber_does_not_change_result (w : World)
  (self : LiteratureReviewService) (cfg : ReviewConfig) (cb : Subscriber) :
  (forall log ev, cb log ev = None) ->
  snd (run_review w self (Some cb) cfg [])
  = snd (run_review w self None cfg []).
Proof.
  intros Hcb. rewrite run_review_none. now apply run_review_quiet.
Qed.

Lemma subscriber_does_not_change_result_witness :
  snd (run_review (world_of three_messages) demo_service (Some recorder)
         demo_config [])
  = snd (run_review (world_of three_messages) demo_service None demo_config []).
Proof.
  apply (subscriber_does_not_change_result (world_of three_messages)
           demo_service demo_config recorder).
  intros log ev. reflexivity.
Defined.

(* ================================================================= *)
(** * The service, its key and the environment *)

(** X15.  [LiteratureReviewService.__init__] stores a non-empty key: the
    key it is given when that is a non-empty string, the environment
    variable otherwise; it raises "API key is required" exactly when
    neither is a non-empty string. *)
Theorem service_key_rules (w : World) (k : option str) :
  match new_service w k with
  | Ok self =>
      self_api_key self <> []
      /\ (usable k = true -> Some (self_api_key self) = k)
      /\ (usable k = false -> Some (self_api_key self) = getenv_api_key w)
  | Err e =>
      exn_str e = lit "API key is required"
      /\ usable k = false /\ usable (getenv_api_key w) = false
  end.
Proof.
  unfold new_service, or_else, usable.
  destruct k as [[|c s]|]; simpl;
    destruct (getenv_api_key w) as [[|d t]|]; simpl;
    repeat split; try reflexivity; try discriminate; intros; discriminate.
Qed.

Lemma new_service_key_nonempty (w : World) (k : option str)
  (self : LiteratureReviewService) :
  new_service w k = Ok self -> self_api_key self <> [].
Proof.
  unfold new_service. destruct (or_else k (getenv_api_key w)) as [[|c s]|];
    try discriminate.
  intros [= <-]. discriminate.
Qed.

Lemma bind_ext {A B : Type} (c1 c2 : Run A) (k1 k2 : A -> Run B)
  (log : list ReviewProgress) :
  c1 log = c2 log -> (forall a l, k1 a l = k2 a l) ->
  bind c1 k1 log = bind c2 k2 log.
Proof.
  intros Hc Hk. unfold bind. rewrite Hc.
  destruct (c2 log) as [l [a|e]]; [apply Hk | reflexivity].
Qed.

Lemma update_progress_env (w : World) (key : option str)
  (pc : option Subscriber) (st : ReviewStatus) (m : str) (p : Z)
  (log : list ReviewProgress) :
  update_progress (with_env w key) pc st m p log = update_progress w pc st m p log.
Proof. reflexivity. Qed.

Lemma consume_env (w : World) (key : option str) (pc : option Subscriber)
  (stream : Stream) (all_messages : list str) (n : Z)
  (log : list ReviewProgress) :
  consume (with_env w key) pc stream all_messages n log
  = consume w pc stream all_messages n log.
Proof. reflexivity. Qed.

Lemma create_team_env (w : World) (key : option str) (model : str) (k : str)
  (turns : Z) :
  k <> [] ->
  create_literature_review_team (with_env w key) model (Some k) turns
  = create_literature_review_team w model (Some k) turns.
Proof.
  intros Hk. unfold create_literature_review_team, or_else.
  destruct k; [contradiction | reflexivity].
Qed.

Lemma run_review_env (w : World) (key : option str)
  (self : LiteratureReviewService) (pc : option Subscriber) (cfg : ReviewConfig)
  (log : list ReviewProgress) :
  self_api_key self <> [] ->
  run_review (with_env w key) self pc cfg log = run_review w self pc cfg log.
Proof.
  intros Hk. rewrite !run_review_parts.
  replace (collect (with_env w key) self pc cfg log)
    with (collect w self pc cfg log); [reflexivity|].
  unfold collect.
  apply bind_ext; [symmetry; apply update_progress_env|]. intros _ l0.
  apply bind_ext; [unfold lift; now rewrite create_team_env|]. intros team l1.
  apply bind_ext; [symmetry; apply update_progress_env|]. intros _ l2.
  apply bind_ext; [symmetry; apply update_progress_env|]. intros _ l3.
  symmetry. apply consume_env.
Qed.

(** X16.  For a service that [__init__] has built, a run does not depend
    on the environment variable: its key is not empty, so
    [create_literature_review_team] is handed that key and never falls back
    on the environment. *)
Theorem run_ignores_environment_key (w0 w : World) (k key : option str)
  (self : LiteratureReviewService) (pc : option Subscriber) (cfg : ReviewConfig)
  (log : list ReviewProgress) :
  new_service w0 k = Ok self ->
  run_review (with_env w key) self pc cfg log = run_review w self pc cfg log.
Proof.
  intros H. apply run_review_env. now apply new_service_key_nonempty with w0 k.
Qed.

Lemma run_ignores_environment_key_witness :
  run_review (with_env (world_of three_messages) (Some (lit "sk-env")))
    demo_service (Some recorder) demo_config []
  = run_review (world_of three_messages) demo_service (Some recorder)
      demo_config [].
Proof.
  apply (run_ignores_environment_key (world_of three_messages)
           (world_of three_messages) (Some (lit "sk-demo"))).
  reflexivity.
Defined.

(* ================================================================= *)
(** * The search tool and the classifier *)

(** X17.  [arxive_search] returns one record per result of the client, in
    order, each with the keys title, authors, published, summary, pdf_url
    in that order; every one of these keys, written as a single-quoted
    dictionary key followed by a colon, is a marker of [is_raw_json_data],
    so a text that holds such a key is classified as a raw record. *)
Theorem paper_keys_are_raw_markers
  (client_results : str -> Z -> list ArxivResult) (isoformat : datetime -> str)
  (query : str) (max_result : Z) (p : paper) (k t : str) :
  In p (arxive_search client_results isoformat query max_result) ->
  In k (map fst p) ->
  length (arxive_search client_results isoformat query max_result)
  = length (client_results query max_result)
  /\ map fst p
     = [lit "title"; lit "authors"; lit "published"; lit "summary"; lit "pdf_url"]
  /\ In (lit "'" ++ k ++ lit "':") json_indicators
  /\ (occurs (lit "'" ++ k ++ lit "':") t -> is_raw_json_data (PyStr t) = true).
Proof.
  intros Hp Hk. unfold arxive_search in *. split; [apply length_map|].
  apply in_map_iff in Hp. destruct Hp as [result [<- _]]. simpl in Hk |- *.
  split; [reflexivity|].
  assert (In (lit "'" ++ k ++ lit "':") json_indicators) as Hin.
  { destruct Hk as [<- | [<- | [<- | [<- | [<- | []]]]]]; vm_compute; tauto. }
  split; [exact Hin|]. intros Hocc. rewrite is_raw_json_data_str.
  apply any_in_spec. now exists (lit "'" ++ k ++ lit "':").
Qed.

Lemma paper_keys_are_raw_markers_witness :
  In (lit "'" ++ lit "summary" ++ lit "':") json_indicators.
Proof.
  apply (paper_keys_are_raw_markers
           (fun _ _ => [mkArxivResult (lit "T") [mkAuthor (lit "A")] 0%Z
                          (lit "S") None])
           (fun _ => lit "1970-01-01T00:00:00") (lit "q") 5
           [ (lit "title", ItemStr (lit "T"));
             (lit "authors", ItemNames [lit "A"]);
             (lit "published", ItemStr (lit "1970-01-01T00:00:00"));
             (lit "summary", ItemStr (lit "S"));
             (lit "pdf_url", ItemNone) ]
           (lit "summary") []).
  - left. reflexivity.
  - right. right. right. left. reflexivity.
Defined.

(* ================================================================= *)
(** * The page *)

Lemma expected_shown_last (w : World) (self : LiteratureReviewService)
  (cfg : ReviewConfig) :
  exists front,
    expected_shown w self cfg
    = front ++ [if success (expected_result w self cfg)
                then (COMPLETED, 100%Z) else (ERROR, 0%Z)].
Proof.
  unfold expected_shown, expected_result.
  destruct (create_literature_review_team w (model_name cfg)
              (Some (self_api_key self)) 2) as [team|e].
  - rewrite app_assoc.
    destruct (stream_failure (run_stream team (task_of cfg)));
      eexists; reflexivity.
  - now exists [(INITIALIZING, 10%Z)].
Qed.

Lemma render_progress_snoc (pre : list ReviewProgress) (last : ReviewProgress) :
  render_progress (pre ++ [last])
  = Some (mkProgressView (progress_percent last) (status_class last)
            (message last)
            (if 1 <? length (pre ++ [last])
             then rev (last_five (pre ++ [last])) else [])).
Proof. unfold render_progress. now rewrite rev_app_distr. Qed.

(** X18.  After a run whose subscriber records the events and returns, as
    the one of the page does, [render_progress] on the recorded events
    shows the class [status-completed] and a full bar when the result is
    successful, and the class [status-error] and an empty bar when it is
    not; it never ends on [status-processing]. *)
Theorem final_status_line (w : World) (self : LiteratureReviewService)
  (cfg : ReviewConfig) (cb : Subscriber) :
  (forall log ev, cb log ev = None) ->
  exists r view,
    snd (run_review w self (Some cb) cfg []) = Ok r
    /\ render_progress (fst (run_review w self (Some cb) cfg [])) = Some view
    /\ line_class view
       = (if success r then lit "status-completed" else lit "status-error")
    /\ bar_percent view = (if success r then 100%Z else 0%Z).
Proof.
  intros Hcb.
  assert (quiet_before_error cb) as Hq by (intros log ev _; apply Hcb).
  exists (expected_result w self cfg).
  pose proof (run_review_expected_shown w self cfg cb Hq) as H.
  destruct (expected_shown_last w self cfg) as [front Hfront].
  rewrite Hfront in H. apply map_shown_snoc in H.
  destruct H as [pre [last [Hlog [_ Hlast]]]].
  eexists. split; [now apply run_review_quiet|].
  rewrite Hlog, render_progress_snoc. split; [reflexivity|].
  cbn [line_class bar_percent]. unfold status_class.
  unfold shown in Hlast.
  destruct (success (expected_result w self cfg));
    injection Hlast as -> ->; split; reflexivity.
Qed.

Lemma final_status_line_witness :
  exists r view,
    snd (run_review (world_of one_message_then_failure) demo_service
           (Some recorder) demo_config []) = Ok r
    /\ render_progress
         (fst (run_review (world_of one_message_then_failure) demo_service
                 (Some recorder) demo_config [])) = Some view
    /\ line_class view
       = (if success r then lit "status-completed" else lit "status-error")
    /\ bar_percent view = (if success r then 100%Z else 0%Z).
Proof.
  apply (final_status_line (world_of one_message_then_failure) demo_service
           demo_config recorder).
  intros log ev. reflexivity.
Defined.

Lemma skipn_snoc (k : nat) (init : list ReviewProgress) (latest : ReviewProgress) :
  k <= length init -> skipn k (init ++ [latest]) = skipn k init ++ [latest].
Proof.
  revert init. induction k as [|k IH]; intros init Hk; [reflexivity|].
  destruct init as [|x init]; simpl in Hk; [lia|]. simpl. apply IH. lia.
Qed.

(** X19.  The detail panel of [render_progress] is empty for a list of at
    most one event; for a longer list it shows the last five events (all of
    them when there are fewer), the latest first. *)
Theorem detail_panel_shows_latest_five (progress_list : list ReviewProgress)
  (view : ProgressView) :
  render_progress progress_list = Some view ->
  (length progress_list <= 1 -> detail_steps view = [])
  /\ (1 < length progress_list ->
      length (detail_steps view) = Nat.min 5 (length progress_list)
      /\ (exists older, progress_list = older ++ rev (detail_steps view))
      /\ forall init latest,
           progress_list = init ++ [latest] ->
           hd_error (detail_steps view) = Some latest).
Proof.
  unfold render_progress.
  destruct (rev progress_list) as [|latest_progress rest] eqn:E; [discriminate|].
  intros [= <-]. cbn [detail_steps]. split.
  - intros Hlen. destruct (Nat.ltb_spec 1 (length progress_list)); [lia|].
    reflexivity.
  - intros Hlen. destruct (Nat.ltb_spec 1 (length progress_list)); [|lia].
    unfold last_five. repeat split.
    + rewrite length_rev, length_skipn. lia.
    + exists (firstn (length progress_list - 5) progress_list).
      now rewrite rev_involutive, firstn_skipn.
    + intros init latest ->. rewrite length_app. simpl length.
      rewrite skipn_snoc by lia. now rewrite rev_app_distr.
Qed.

Lemma detail_panel_shows_latest_five_witness :
  length (detail_steps
            (mkProgressView 100 (lit "status-completed")
               (lit "Literature review completed successfully!")
               (rev (last_five
                       (fst (run_review (world_of three_messages) demo_service
                               (Some recorder) demo_config []))))))
  = Nat.min 5
      (length (fst (run_review (world_of three_messages) demo_service
                      (Some recorder) demo_config []))).
Proof.
  apply (detail_panel_shows_latest_five
           (fst (run_review (world_of three_messages) demo_service
                   (Some recorder) demo_config []))).
  - vm_compute. reflexivity.
  - vm_compute. lia.
Defined.

Lemma lstrip_nil_iff (s : str) : lstrip s = [] <-> forallb isspace s = true.
Proof.
  induction s as [|c s IH]; simpl; [tauto|].
  destruct (isspace c); simpl; [exact IH|]. split; discriminate.
Qed.

Lemma strip_nil_iff (s : str) : strip s = [] <-> forallb isspace s = true.
Proof.
  rewrite <- lstrip_nil_iff. unfold strip. split.
  - intros H. pose proof (lstrip_lstripped s) as L.
    destruct (lstrip s) as [|c t]; [reflexivity|]. simpl in L.
    rewrite rstrip_cons, L in H. destruct (rstrip t); discriminate.
  - now intros ->.
Qed.

(** X20.  The page starts no run for a topic that is empty or all
    whitespace; for any other topic the configuration it hands to
    [run_review] has the stripped topic, which is not empty, the chosen
    number of papers, two turns, and the environment variable as key. *)
Theorem start_needs_a_topic (text : str) (max_papers : Z)
  (env_key : option str) :
  (start_config text max_papers env_key = None
   <-> forallb isspace text = true)
  /\ forall cfg,
      start_config text max_papers env_key = Some cfg ->
      topic cfg = strip text /\ topic cfg <> []
      /\ strip (topic cfg) = topic cfg
      /\ max_results cfg = max_papers /\ max_turns cfg = 2%Z
      /\ api_key cfg = env_key.
Proof.
  unfold start_config. rewrite <- strip_nil_iff.
  destruct (strip text) as [|c t] eqn:E; simpl.
  - split; [tauto | discriminate].
  - split; [split; discriminate|]. intros cfg [= <-]. simpl.
    repeat split; try discriminate. rewrite <- E. apply strip_idem.
Qed.
